(** * Categorising consumer: a shallow embedding of [consumers/consumer_gbogbo.py]

    The consumer tails a growing file of JSON lines, normalises each decoded
    record ([process_message]), stores it in a master table and in a
    per-category table while keeping a statistics row per category
    ([insert_message]), and reports a per-category summary
    ([get_category_analytics]).

    Modelling conventions.
    - Text is [string] (one [ascii] per character); [str.lower] is modelled on
      the ASCII letters, [str.strip] on the ASCII white space; text that
      cannot be encoded in UTF-8 (a lone surrogate) is outside the model.
    - Python [int] is [Z]; Python [float] and SQLite [REAL] are modelled by
      the rationals [Q]: rounding, infinities and NaN are outside the model.
    - Python exceptions are the [Raise] results of an error-and-state monad
      over the database and the log; [sys.exit] is an outcome of the poll.
    - The libraries the program calls (the JSON decoder, [float] and [int]
      on text, the SQL engine's rendering of reals, its acceptance of an
      identifier, the table it makes of one it does not accept, and its
      sorter) are the fields of the class [Runtime].
    - The columns filled by the engine's clock ([created_at],
      [last_updated]) are not modelled. *)

From Stdlib Require Import ZArith QArith List String Ascii Bool Lia DecimalString.
From Stdlib Require Import Permutation Sorted.
From stdpp Require Import base strings gmap list.

Open Scope string_scope.

(** ** Text operations used by the program *)

Module Text.

Fixpoint str_map (f : ascii -> ascii) (s : string) : string :=
  match s with
  | EmptyString => EmptyString
  | String c r => String (f c) (str_map f r)
  end.

Definition is_upper (c : ascii) : bool :=
  let n := nat_of_ascii c in (65 <=? n)%nat && (n <=? 90)%nat.

(** [str.lower] on one ASCII character. *)
Definition lower_char (c : ascii) : ascii :=
  if is_upper c then ascii_of_nat (nat_of_ascii c + 32) else c.

Definition lower (s : string) : string := str_map lower_char s.

(** [s.replace(old, new)] for one-character [old] and [new]. *)
Definition replace (old new : ascii) (s : string) : string :=
  str_map (fun c => if Ascii.eqb c old then new else c) s.

(** The characters [str.strip] removes (ASCII range). *)
Definition is_space (c : ascii) : bool :=
  let n := nat_of_ascii c in
  ((9 <=? n)%nat && (n <=? 13)%nat) || ((28 <=? n)%nat && (n <=? 32)%nat).

Fixpoint lstrip (s : string) : string :=
  match s with
  | EmptyString => EmptyString
  | String c r => if is_space c then lstrip r else s
  end.

Fixpoint rstrip (s : string) : string :=
  match s with
  | EmptyString => EmptyString
  | String c r =>
      match rstrip r with
      | EmptyString => if is_space c then EmptyString else String c EmptyString
      | r' => String c r'
      end
  end.

Definition strip (s : string) : string := rstrip (lstrip s).

(** [s[:n]] *)
Fixpoint prefix (n : nat) (s : string) : string :=
  match n, s with
  | S k, String c r => String c (prefix k r)
  | _, _ => EmptyString
  end.

(** The text from offset [n] on ([file.seek(n)] followed by reading). *)
Fixpoint drop (n : nat) (s : string) : string :=
  match n, s with
  | S k, String _ r => drop k r
  | _, _ => s
  end.

Definition LF : ascii := ascii_of_nat 10.
Definition CR : ascii := ascii_of_nat 13.

(** Iterating over a text-mode file: the lines in order, each with its
    terminator (line feed, carriage return, or both), the last one without
    when the text does not end in one. The terminator is kept as read: the
    program only ever uses [line.strip()], which removes it either way. *)
Fixpoint read_lines (s : string) : list string :=
  match s with
  | EmptyString => []
  | String c r =>
      if Ascii.eqb c LF then String c EmptyString :: read_lines r
      else if Ascii.eqb c CR then
        match r with
        | String c2 r2 =>
            if Ascii.eqb c2 LF
            then String c (String c2 EmptyString) :: read_lines r2
            else String c EmptyString :: read_lines r
        | EmptyString => [String c EmptyString]
        end
      else
        match read_lines r with
        | [] => [String c EmptyString]
        | l :: ls => String c l :: ls
        end
  end.

(** A line is complete when it ends in a terminator. *)
Fixpoint terminated (s : string) : bool :=
  match s with
  | EmptyString => false
  | String c EmptyString => Ascii.eqb c LF || Ascii.eqb c CR
  | String _ r => terminated r
  end.

Fixpoint concat_lines (ls : list string) : string :=
  match ls with
  | [] => EmptyString
  | l :: r => l ++ concat_lines r
  end.

End Text.

(** ** Category router: lines 102-104 and 163-164 *)

(** [category.replace(' ', '_').replace('-', '_').lower()] *)
Definition safe_category (category : string) : string :=
  Text.lower (Text.replace "-" "_" (Text.replace " " "_" category)).

(** [f"category_{safe_category}"] *)
Definition table_name (category : string) : string :=
  "category_" ++ safe_category category.

(** The transform in the order the specification words it: lower-case
    first, then turn each space and each hyphen into an underscore. *)
Definition partition_identifier_spec (label : string) : string :=
  Text.replace "-" "_" (Text.replace " " "_" (Text.lower label)).

(** The same transform, one character at a time. *)
Definition partition_char (c : ascii) : ascii :=
  if Ascii.eqb c " " then "_"%char
  else if Ascii.eqb c "-" then "_"%char
  else Text.lower_char c.

(** ** Python values, exceptions and the built-in coercions *)

Close Scope Q_scope.

Inductive exn : Type :=
| TypeError
| ValueError
| AttributeError
| OverflowError
| IntegrityError
| OperationalError
| ProgrammingError.

Inductive result (A : Type) : Type :=
| Ok (a : A)
| Raise (e : exn).

Arguments Ok {A} a.
Arguments Raise {A} e.

#[export] Instance result_ret : MRet result := fun A a => Ok a.

#[export] Instance result_bind : MBind result := fun A B f r =>
  match r with
  | Ok a => f a
  | Raise e => Raise e
  end.

(** What [json.loads] can return. *)
#[warnings="-register-all"]
Inductive pyval : Type :=
| PNone
| PBool (b : bool)
| PInt (z : Z)
| PFloat (q : Q)
| PStr (s : string)
| PList (items : list pyval)
| PDict (entries : list (string * pyval)).

(** Lookup in a decoded object. *)
Fixpoint entry (entries : list (string * pyval)) (key : string) : option pyval :=
  match entries with
  | [] => None
  | (k, v) :: rest => if String.eqb k key then Some v else entry rest key
  end.

(** [message.get(key, fallback)]: only a dict has the method. *)
Definition py_get (message : pyval) (key : string) (fallback : pyval) : result pyval :=
  match message with
  | PDict entries => Ok (default fallback (entry entries key))
  | _ => Raise AttributeError
  end.

(** Rounding towards zero, as [int] does on a float. *)
Definition truncate (q : Q) : Z := Z.quot (Qnum q) (Zpos (Qden q)).

(** An [int] at or beyond this magnitude has no [float]. *)
Definition float_limit : Z := 2 ^ 1024 - 2 ^ 970.

(** Only a [str] or a list can be sliced. *)
Definition py_slice (n : nat) (v : pyval) : result pyval :=
  match v with
  | PStr s => Ok (PStr (Text.prefix n s))
  | PList items => Ok (PList (firstn n items))
  | _ => Raise TypeError
  end.

(** Only a [str] has [replace] and [lower]. *)
Definition py_str (v : pyval) : result string :=
  match v with
  | PStr s => Ok s
  | _ => Raise AttributeError
  end.

(** ** Rows of the three tables (lines 61-88 and 109-120) *)

Record message_row : Type := {
  m_id : nat;
  m_message : string;
  m_author : string;
  m_timestamp : string;
  m_category : string;
  m_sentiment : Q;
  m_keyword_mentioned : option string;
  m_message_length : Z
}.

Record category_row : Type := {
  c_id : nat;
  c_message : string;
  c_author : string;
  c_timestamp : string;
  c_sentiment : Q;
  c_keyword_mentioned : option string;
  c_message_length : Z
}.

Record stats_row : Type := {
  message_count : Z;
  avg_sentiment : option Q
}.

Record database : Type := {
  all_messages : list message_row;
  category_tables : gmap string (list category_row);
  category_stats : gmap string stats_row
}.

(** One row of the analytics query (lines 205-215). *)
Record summary_row : Type := {
  sum_category : string;
  sum_message_count : Z;
  sum_avg_sentiment : option Q;
  sum_unique_authors : nat;
  sum_latest_message : option string
}.

(** The dict [process_message] builds: always these seven keys, with the
    sentiment already a float and the length already an int. *)
Record processed_message : Type := {
  p_message : pyval;
  p_author : pyval;
  p_timestamp : pyval;
  p_category : pyval;
  p_sentiment : Q;
  p_keyword_mentioned : pyval;
  p_message_length : Z
}.

(** What the program writes to the logger, and its calls of [time.sleep]. *)
Inductive event : Type :=
| InfoCalled (last_position : nat)
| InfoReading (last_position : nat)
| InfoProcessed (category : pyval) (message_prefix : pyval)
| ErrorProcessing (e : exn)
| InfoCategoryTable (table : string)
| InfoInserted (table : string)
| InfoAnalytics (rows : list summary_row)
| ErrorJson (line_prefix : string)
| ErrorFileNotFound
| ErrorReading (e : exn)
| Sleep (secs : nat).

(** ** The libraries the program calls *)

Class Runtime : Type := {
  (** [json.loads]; [None] stands for [JSONDecodeError]. *)
  json_loads : string -> option pyval;
  (** [float] on a [str]; [None] stands for [ValueError]. *)
  float_of_text : string -> option Q;
  (** [int] on a [str]; [None] stands for [ValueError]. *)
  int_of_text : string -> option Z;
  (** The text the engine stores when a float is bound to a TEXT column. *)
  real_to_text : Q -> string;
  (** Whether the engine accepts the statements built around this
      identifier (CREATE TABLE, CREATE INDEX, INSERT). *)
  accepts_identifier : string -> bool;
  (** For an identifier the engine does not accept: the identifier of the
      table that CREATE TABLE creates all the same, before CREATE INDEX
      raises, as [a] for an [a] followed by a tab, a line break or a
      comment; [None] when CREATE TABLE is refused as well. A label that
      brings a column list of its own makes a table of another shape, which
      the model, whose category tables have one shape, leaves out. *)
  stray_table : string -> option string;
  (** The engine's [ORDER BY message_count DESC]. *)
  order_by_count_desc : list summary_row -> list summary_row
}.

(** ** The state the program acts on, and its monad *)

Record world : Type := {
  db : database;
  trace : list event
}.

Definition M (A : Type) : Type := world -> result A * world.

#[export] Instance M_ret : MRet M := fun A a w => (Ok a, w).

#[export] Instance M_bind : MBind M := fun A B f m w =>
  match m w with
  | (Ok a, w') => f a w'
  | (Raise e, w') => (Raise e, w')
  end.

Definition raise {A : Type} (e : exn) : M A := fun w => (Raise e, w).

Definition lift {A : Type} (r : result A) : M A := fun w => (r, w).

Definition record (e : event) (w : world) : world :=
  {| db := db w; trace := trace w ++ [e] |}.

Definition emit (e : event) : M unit := fun w => (Ok tt, record e w).

Definition read_db : M database := fun w => (Ok (db w), w).

Definition write_db (d : database) : M unit :=
  fun w => (Ok tt, {| db := d; trace := trace w |}).

(** [try: body except Exception as e: handler] *)
Definition try_except {A : Type} (body : M A) (handler : exn -> M A) : M A :=
  fun w =>
    match body w with
    | (Ok a, w') => (Ok a, w')
    | (Raise e, w') => handler e w'
    end.

(** [with sqlite3.connect(db_path) as conn: body]: the writes of [body] are
    committed when it ends normally and rolled back when it raises. *)
Definition with_connection {A : Type} (body : M A) : M A :=
  fun w =>
    match body w with
    | (Ok a, w') => (Ok a, w')
    | (Raise e, w') => (Raise e, {| db := db w; trace := trace w' |})
    end.

(** ** SQL values and aggregates *)

Definition int64 (z : Z) : bool := ((- 2 ^ 63 <=? z) && (z <? 2 ^ 63))%Z.

Definition decimal (z : Z) : string := NilZero.string_of_int (Z.to_int z).

Definition not_null {A : Type} (v : option A) : result A :=
  match v with
  | Some a => Ok a
  | None => Raise IntegrityError
  end.

(** Binding an int to an INTEGER column. *)
Definition bind_integer (z : Z) : result Z :=
  if int64 z then Ok z else Raise OverflowError.

Definition sum_Q (l : list Q) : Q := fold_right Qplus 0%Q l.

(** [AVG]: the sum over the count, NULL on no row. *)
Definition sql_avg (l : list Q) : option Q :=
  match l with
  | [] => None
  | _ => Some (sum_Q l / inject_Z (Z.of_nat (length l)))%Q
  end.

(** [MAX] on text: the greatest in the order of the character codes. *)
Definition sql_max (l : list string) : option string :=
  match l with
  | [] => None
  | s :: r => Some (fold_left (fun a b => if String.leb a b then b else a) r s)
  end.

(** Text in ascending order of the character codes, the order of the
    engine's index on a TEXT column. *)
Fixpoint insert_name (x : string) (l : list string) : list string :=
  match l with
  | [] => [x]
  | y :: r => if String.leb x y then x :: l else y :: insert_name x r
  end.

Definition sort_names (l : list string) : list string := foldr insert_name [] l.

(** The rows of the master table in one category. *)
Definition in_category (category : string) (rows : list message_row) : list message_row :=
  filter (fun m => m_category m = category) rows.

(** The rows of a category table; a table never created has none. *)
Definition rows_of (table : string) (d : database) : list category_row :=
  default [] (category_tables d !! table).

(** The columns the two tables share. *)
Definition master_fields (m : message_row) : string * string * string * Q * option string * Z :=
  (m_message m, m_author m, m_timestamp m, m_sentiment m, m_keyword_mentioned m, m_message_length m).

Definition partition_fields (c : category_row) : string * string * string * Q * option string * Z :=
  (c_message c, c_author c, c_timestamp c, c_sentiment c, c_keyword_mentioned c, c_message_length c).

(** [init_db] on the file [main] has just deleted: two empty tables. *)
Definition init_db : database :=
  {| all_messages := []; category_tables := ∅; category_stats := ∅ |}.

Definition init_world : world := {| db := init_db; trace := [] |}.

(** ** The program *)

Section Program.

Context `{RT : Runtime}.

(** [float(v)] *)
Definition py_float (v : pyval) : result Q :=
  match v with
  | PBool b => Ok (if b then 1%Q else 0%Q)
  | PInt z => if (Z.abs z <? float_limit)%Z then Ok (inject_Z z) else Raise OverflowError
  | PFloat q => Ok q
  | PStr s => match float_of_text s with Some q => Ok q | None => Raise ValueError end
  | PNone | PList _ | PDict _ => Raise TypeError
  end.

(** [int(v)] *)
Definition py_int (v : pyval) : result Z :=
  match v with
  | PBool b => Ok (if b then 1%Z else 0%Z)
  | PInt z => Ok z
  | PFloat q => Ok (truncate q)
  | PStr s => match int_of_text s with Some z => Ok z | None => Raise ValueError end
  | PNone | PList _ | PDict _ => Raise TypeError
  end.

(** The dict display of lines 236-244, evaluated key by key. *)
Definition normalise (message : pyval) : result processed_message :=
  m ← py_get message "message" PNone;
  a ← py_get message "author" PNone;
  t ← py_get message "timestamp" PNone;
  c ← py_get message "category" (PStr "other");
  s ← py_get message "sentiment" (PFloat 0%Q) ≫= py_float;
  k ← py_get message "keyword_mentioned" (PStr "");
  l ← py_get message "message_length" (PInt 0%Z) ≫= py_int;
  mret {| p_message := m; p_author := a; p_timestamp := t; p_category := c;
          p_sentiment := s; p_keyword_mentioned := k; p_message_length := l |}.

(** Lines 224-249. *)
Definition process_message (message : pyval) : M (option processed_message) :=
  try_except
    (processed ← lift (normalise message);
     shown ← lift (py_slice 50 (p_message processed));
     _ ← emit (InfoProcessed (p_category processed) shown);
     mret (Some processed))
    (fun e => _ ← emit (ErrorProcessing e); mret None).

(** Binding a Python value to a parameter that lands in a TEXT column. *)
Definition bind_text (v : pyval) : result (option string) :=
  match v with
  | PNone => Ok None
  | PBool b => Ok (Some (if b then "1" else "0"))
  | PInt z => if int64 z then Ok (Some (decimal z)) else Raise OverflowError
  | PFloat q => Ok (Some (real_to_text q))
  | PStr s => Ok (Some s)
  | PList _ | PDict _ => Raise ProgrammingError
  end.

(** [CREATE TABLE IF NOT EXISTS]: a table that exists is left as it is, and
    [category_stats] exists since [init_db]. *)
Definition create_table (table : string) : M unit :=
  if String.eqb table "category_stats" then mret tt
  else
    d ← read_db;
    write_db {| all_messages := all_messages d;
                category_tables := <[table := rows_of table d]> (category_tables d);
                category_stats := category_stats d |}.

(** Lines 94-128. The block holds CREATE TABLE and CREATE INDEX only, and
    the connection opens no transaction for them: each statement is kept as
    soon as it has run, and leaving the block on an exception undoes
    nothing.
    - The name [category_stats] is taken by the statistics table: CREATE
      TABLE finds it and does nothing, CREATE INDEX raises, as that table
      has no [timestamp] column.
    - For an identifier the engine accepts, lines 109-120 create the table
      of the category and lines 123-125 its index.
    - For any other identifier an exception is raised at CREATE INDEX at
      the latest, and the table that CREATE TABLE has made of the
      identifier by then stays in the database. *)
Definition create_category_table (category : pyval) : M unit :=
  c ← lift (py_str category);
  let table := table_name c in
  if String.eqb table "category_stats" then raise OperationalError
  else if accepts_identifier (safe_category c) then
    _ ← create_table table;
    emit (InfoCategoryTable table)
  else
    _ ← match stray_table (safe_category c) with
        | Some identifier => create_table ("category_" ++ identifier)
        | None => mret tt
        end;
    raise OperationalError.

(** Lines 148-160: all parameters are bound, then the row is checked
    against the NOT NULL columns and appended. The sentiment is a float of
    the model, a rational, which the REAL NOT NULL column takes as it is. *)
Definition insert_into_all_messages (message_data : processed_message) : M unit :=
  message ← lift (bind_text (p_message message_data));
  author ← lift (bind_text (p_author message_data));
  timestamp ← lift (bind_text (p_timestamp message_data));
  category ← lift (bind_text (p_category message_data));
  keyword ← lift (bind_text (p_keyword_mentioned message_data));
  len ← lift (bind_integer (p_message_length message_data));
  message ← lift (not_null message);
  author ← lift (not_null author);
  timestamp ← lift (not_null timestamp);
  category ← lift (not_null category);
  d ← read_db;
  write_db {| all_messages := all_messages d ++
                [ {| m_id := S (length (all_messages d)); m_message := message;
                     m_author := author; m_timestamp := timestamp;
                     m_category := category; m_sentiment := p_sentiment message_data;
                     m_keyword_mentioned := keyword; m_message_length := len |} ];
              category_tables := category_tables d;
              category_stats := category_stats d |}.

(** Lines 166-177. *)
Definition insert_into_category_table (table : string) (message_data : processed_message) : M unit :=
  message ← lift (bind_text (p_message message_data));
  author ← lift (bind_text (p_author message_data));
  timestamp ← lift (bind_text (p_timestamp message_data));
  keyword ← lift (bind_text (p_keyword_mentioned message_data));
  len ← lift (bind_integer (p_message_length message_data));
  d ← read_db;
  match category_tables d !! table with
  | None => raise OperationalError
  | Some rows =>
      message ← lift (not_null message);
      author ← lift (not_null author);
      timestamp ← lift (not_null timestamp);
      write_db {| all_messages := all_messages d;
                  category_tables :=
                    <[table := (rows ++
                        [ {| c_id := S (length rows); c_message := message;
                             c_author := author; c_timestamp := timestamp;
                             c_sentiment := p_sentiment message_data;
                             c_keyword_mentioned := keyword;
                             c_message_length := len |} ])%list]> (category_tables d);
                  category_stats := category_stats d |}
  end.

(** Lines 180-186: the count is the stored count plus one, the average is
    taken afresh over the master table. *)
Definition update_category_stats (category : string) : M unit :=
  d ← read_db;
  let count := (default 0 (message_count <$> category_stats d !! category) + 1)%Z in
  let avg := sql_avg (m_sentiment <$> in_category category (all_messages d)) in
  write_db {| all_messages := all_messages d;
              category_tables := category_tables d;
              category_stats :=
                <[category := {| message_count := count; avg_sentiment := avg |}]>
                  (category_stats d) |}.

(** Lines 131-189. *)
Definition insert_message (message_data : processed_message) : M unit :=
  let category := p_category message_data in
  _ ← create_category_table category;
  with_connection
    (_ ← insert_into_all_messages message_data;
     c ← lift (py_str category);
     let table := table_name c in
     _ ← insert_into_category_table table message_data;
     _ ← update_category_stats c;
     emit (InfoInserted table)).

(** One row of the grouped query for one category. *)
Definition summarise (rows : list message_row) (category : string) : summary_row :=
  let group := in_category category rows in
  {| sum_category := category;
     sum_message_count := Z.of_nat (length group);
     sum_avg_sentiment := sql_avg (m_sentiment <$> group);
     sum_unique_authors := length (remove_dups (m_author <$> group));
     sum_latest_message := sql_max (m_timestamp <$> group) |}.

(** The categories of the master table, each once, in the order of the
    character codes: the order in which the scan of [idx_category] that
    serves [GROUP BY category] meets them. *)
Definition categories (rows : list message_row) : list string :=
  sort_names (remove_dups (m_category <$> rows)).

(** The groups of [GROUP BY category], as they reach the sorter of
    [ORDER BY]. *)
Definition category_groups (d : database) : list summary_row :=
  summarise (all_messages d) <$> categories (all_messages d).

(** Lines 192-217. *)
Definition get_category_analytics : M (list summary_row) :=
  d ← read_db;
  mret (order_by_count_desc (category_groups d)).

(** Lines 303-309: the report; the format [:.2f] needs a number. *)
Definition log_category_analytics : M unit :=
  analytics ← get_category_analytics;
  if forallb (fun r => bool_decide (is_Some (sum_avg_sentiment r))) analytics
  then emit (InfoAnalytics analytics)
  else raise TypeError.

(** Lines 288-313: the body of [for line in file], on the counter
    [messages_processed]. *)
Definition handle_line (line : string) (messages_processed : nat) : M nat :=
  if String.eqb (Text.strip line) "" then mret messages_processed
  else
    match json_loads (Text.strip line) with
    | None =>
        _ ← emit (ErrorJson (Text.prefix 50 (Text.strip line)));
        mret messages_processed
    | Some message =>
        processed_message ← process_message message;
        match processed_message with
        | Some message_data =>
            _ ← insert_message message_data;
            let count := S messages_processed in
            _ ← (if Nat.eqb (count mod 10) 0 then log_category_analytics else mret tt);
            mret count
        | None => mret messages_processed
        end
    end.

Fixpoint for_lines (lines : list string) (messages_processed : nat) : M nat :=
  match lines with
  | [] => mret messages_processed
  | line :: rest =>
      count ← handle_line line messages_processed;
      for_lines rest count
  end.

(** The lines [for line in file] yields after [file.seek(last_position)]. *)
Definition delivered_lines (content : string) (last_position : nat) : list string :=
  Text.read_lines (Text.drop last_position content).

(** [file.tell()] once the iteration has reached the end of the file. *)
Definition tell_at_end (content : string) (last_position : nat) : nat :=
  Nat.max last_position (String.length content).

(** How one turn of the [while True] of lines 279-328 leaves the [try]
    statement: by [return], by [sys.exit], or by reaching its end. *)
Inductive flow : Type :=
| Return_ (last_position : nat)
| SysExit (code : Z)
| FallThrough (messages_processed : nat).

(** Lines 280-326; [file] is the live file as [open] finds it, [None] when
    it does not exist. *)
Definition consume_attempt (file : option string) (last_position messages_processed : nat)
    (w : world) : flow * world :=
  let w := record (InfoReading last_position) w in
  match file with
  | None => (SysExit 10, record ErrorFileNotFound w)
  | Some content =>
      match for_lines (delivered_lines content last_position) messages_processed w with
      | (Ok _, w') => (Return_ (tell_at_end content last_position), w')
      | (Raise e, w') => (SysExit 11, record (ErrorReading e) w')
      end
  end.

(** How a call of [consume_messages_from_file] ends. *)
Inductive outcome : Type :=
| Returned (last_position : nat)
| Exited (code : Z).

(** The [while True] of lines 279-328. [opens] lists what each successive
    [open] of the live file finds; the result carries the part of it not
    yet used, and is [None] when the list runs out before the call ends. *)
Fixpoint consume_loop (opens : list (option string)) (interval_secs last_position messages_processed : nat)
    (w : world) : option (outcome * list (option string) * world) :=
  match opens with
  | [] => None
  | file :: later =>
      match consume_attempt file last_position messages_processed w with
      | (Return_ position, w') => Some (Returned position, later, w')
      | (SysExit code, w') => Some (Exited code, later, w')
      | (FallThrough count, w') =>
          consume_loop later interval_secs last_position count (record (Sleep interval_secs) w')
      end
  end.

(** Lines 256-328. *)
Definition consume_messages_from_file (opens : list (option string)) (interval_secs last_position : nat)
    (w : world) : option (outcome * list (option string) * world) :=
  let messages_processed := 0 in
  consume_loop opens interval_secs last_position messages_processed
    (record (InfoCalled last_position) w).

(** Where [polls] turns of the loop of lines 375-379 leave the process. *)
Inductive run : Type :=
| Polling (last_position : nat) (later : list (option string)) (w : world)
| Terminated (code : Z) (w : world)
| Unobserved.

Fixpoint main_loop (polls : nat) (opens : list (option string)) (interval_secs last_position : nat)
    (w : world) : run :=
  match polls with
  | 0 => Polling last_position opens w
  | S k =>
      match consume_messages_from_file opens interval_secs last_position w with
      | None => Unobserved
      | Some (Returned position, later, w') =>
          main_loop k later interval_secs position (record (Sleep interval_secs) w')
      | Some (Exited code, _, w') => Terminated code w'
      end
  end.

(** Lines 364-379: a fresh database, then the loop from position 0. *)
Definition main (polls : nat) (opens : list (option string)) (interval_secs : nat) : run :=
  main_loop polls opens interval_secs 0 init_world.

End Program.

(** ** What the specification asks of the tailing reader and of the summary *)

(** The length of the last line when it lacks a terminator, else 0. *)
Definition partial_tail (lines : list string) : nat :=
  match List.last lines "" with
  | "" => 0
  | l => if Text.terminated l then 0 else String.length l
  end.

(** The cursor section 4.4 of the specification asks for: the position
    after the last complete line, which is the start of a trailing partial
    line when there is one. *)
Definition deferred_cursor (content : string) (cursor : nat) : nat :=
  tell_at_end content cursor - partial_tail (delivered_lines content cursor).

(** The order section 4.3 of the specification asks for: count descending,
    then category name ascending. *)
Definition count_then_name (a b : summary_row) : Prop :=
  (sum_message_count b < sum_message_count a)%Z
  \/ (sum_message_count a = sum_message_count b
      /\ String.ltb (sum_category a) (sum_category b) = true).

(** The order the query asks for: count descending. *)
Definition count_desc (a b : summary_row) : Prop :=
  (sum_message_count b <= sum_message_count a)%Z.

(** An engine honours [ORDER BY message_count DESC] when it returns the
    rows it was given, highest count first. *)
Definition honours_order_by (RT : Runtime) : Prop :=
  forall rows : list summary_row,
    Permutation (order_by_count_desc rows) rows
    /\ StronglySorted count_desc (order_by_count_desc rows).

(** A sorter on the count alone, highest first, that leaves rows of equal
    count in the order in which they reach it. *)
Fixpoint insert_by_count (x : summary_row) (l : list summary_row) : list summary_row :=
  match l with
  | [] => [x]
  | y :: r =>
      if (sum_message_count y <=? sum_message_count x)%Z then x :: l
      else y :: insert_by_count x r
  end.

Definition sort_by_count (l : list summary_row) : list summary_row :=
  foldr insert_by_count [] l.

(** The engine's sorter is of that kind: the sort key of the query is the
    count, and the merge sort behind [ORDER BY] keeps rows of equal key in
    the order of their arrival. *)
Definition keeps_arrival_order (RT : Runtime) : Prop :=
  forall rows : list summary_row, order_by_count_desc rows = sort_by_count rows.

(** The events of a trace that are reports, decode faults, sleeps. *)
Definition is_report (e : event) : bool :=
  match e with InfoAnalytics _ => true | _ => false end.

Definition is_decode_fault (e : event) : bool :=
  match e with ErrorJson _ => true | _ => false end.

Definition is_sleep (e : event) : bool :=
  match e with Sleep _ => true | _ => false end.

Definition is_read (e : event) : bool :=
  match e with InfoReading _ => true | _ => false end.

Definition count_events (p : event -> bool) (t : list event) : nat :=
  length (List.filter p t).

(** Running a sequence of calls of [insert_message], whatever each one's
    result. *)
Fixpoint insert_all `{RT : Runtime} (calls : list processed_message) (w : world) : world :=
  match calls with
  | [] => w
  | p :: rest => insert_all rest (snd (insert_message p w))
  end.

(** ** A concrete runtime for the examples *)

Module Demo.

(** JSON text of an object whose members are strings or integers. *)
Definition quote : string := String (ascii_of_nat 34) EmptyString.

Definition json_scalar (v : pyval) : string :=
  match v with
  | PStr s => quote ++ s ++ quote
  | PInt z => decimal z
  | _ => "null"
  end.

Fixpoint json_members (entries : list (string * pyval)) : string :=
  match entries with
  | [] => ""
  | [(k, v)] => quote ++ k ++ quote ++ ": " ++ json_scalar v
  | (k, v) :: rest => quote ++ k ++ quote ++ ": " ++ json_scalar v ++ ", " ++ json_members rest
  end.

Definition json_object (entries : list (string * pyval)) : string :=
  "{" ++ json_members entries ++ "}".

Definition humor : list (string * pyval) :=
  [("message", PStr "I just shared a meme!"); ("author", PStr "Charlie");
   ("timestamp", PStr "2025-01-29 14:35:20"); ("category", PStr "humor");
   ("message_length", PInt 21)].

Definition no_author : list (string * pyval) :=
  [("message", PStr "I just shared a meme!");
   ("timestamp", PStr "2025-01-29 14:35:20"); ("category", PStr "humor")].

Definition no_message : list (string * pyval) :=
  [("author", PStr "Charlie");
   ("timestamp", PStr "2025-01-29 14:35:20"); ("category", PStr "humor")].

(** The objects the demo decoder knows; any other text is a decode fault
    for it. *)
Definition known : list (list (string * pyval)) := [humor; no_author; no_message].

Definition loads (s : string) : option pyval :=
  PDict <$> List.find (fun entries => String.eqb (json_object entries) s) known.

Definition identifier_char (c : ascii) : bool :=
  let n := nat_of_ascii c in
  ((97 <=? n)%nat && (n <=? 122)%nat) || ((48 <=? n)%nat && (n <=? 57)%nat) || (n =? 95)%nat.

Fixpoint identifier (s : string) : bool :=
  match s with
  | EmptyString => true
  | String c r => identifier_char c && identifier r
  end.

(** The white space of the engine other than the space, which
    [safe_category] has replaced: tab, line feed, form feed, carriage
    return. *)
Definition blank (c : ascii) : bool :=
  let n := nat_of_ascii c in (n =? 9)%nat || (n =? 10)%nat || (n =? 12)%nat || (n =? 13)%nat.

Fixpoint all_blank (s : string) : bool :=
  match s with
  | EmptyString => true
  | String c r => blank c && all_blank r
  end.

(** The identifier that is left of [s] without the white space at its
    end, when [s] is an identifier followed by such white space. *)
Fixpoint before_blanks (s : string) : option string :=
  match s with
  | EmptyString => None
  | String c r =>
      if all_blank s then Some EmptyString
      else if identifier_char c then String c <$> before_blanks r
      else None
  end.

(** The decoder reads the objects of [known]; no text is read as a number
    and no float is bound as text in the examples; identifiers are those
    made of lower-case letters, digits and underscores, and one followed by
    white space leaves its table behind; rows of equal count keep the order
    of their arrival. *)
Definition runtime : Runtime :=
  {| json_loads := loads;
     float_of_text := fun _ => None;
     int_of_text := fun _ => None;
     real_to_text := fun _ => "";
     accepts_identifier := identifier;
     stray_table := before_blanks;
     order_by_count_desc := sort_by_count |}.

Definition line (entries : list (string * pyval)) : string :=
  json_object entries ++ String Text.LF EmptyString.

Fixpoint repeat_text (n : nat) (s : string) : string :=
  match n with
  | 0 => ""
  | S k => s ++ repeat_text k s
  end.

(** A record still being written: the first 40 characters of a line. *)
Definition partial : string := Text.prefix 40 (line humor).

(** A line that is no JSON text. *)
Definition garbage : string := "not json at all" ++ String Text.LF EmptyString.

(** The record [process_message] makes of an object that has a message, a
    category and a length and nothing to coerce. *)
Definition record_of_line (entries : list (string * pyval)) : processed_message :=
  {| p_message := default PNone (entry entries "message");
     p_author := default PNone (entry entries "author");
     p_timestamp := default PNone (entry entries "timestamp");
     p_category := default (PStr "other") (entry entries "category");
     p_sentiment := 0%Q;
     p_keyword_mentioned := PStr "";
     p_message_length := match entry entries "message_length" with Some (PInt z) => z | _ => 0%Z end |}.

(** A processed record of a given category and author. *)
Definition record_of (category author : string) : processed_message :=
  {| p_message := PStr "hello"; p_author := PStr author; p_timestamp := PStr "2025-01-29 14:35:20";
     p_category := PStr category; p_sentiment := 0%Q;
     p_keyword_mentioned := PStr ""; p_message_length := 5%Z |}.

End Demo.

(** The statistics row that a rescan of the master table gives a category:
    none when the category has no row, else the number of its rows and the
    mean of their sentiments. *)
Definition recomputed_stats (rows : list message_row) (category : string) : option stats_row :=
  match in_category category rows with
  | [] => None
  | group =>
      Some {| message_count := Z.of_nat (length group);
              avg_sentiment := sql_avg (m_sentiment <$> group) |}
  end.

(** ** Notions used by the statements *)

(** The statistics table is the rescan of the master table. *)
Definition stats_in_step (d : database) : Prop :=
  forall category, category_stats d !! category = recomputed_stats (all_messages d) category.

(** The events that only the polling code writes. *)
Definition poll_marker (e : event) : bool := is_sleep e || is_read e.

(** [t'] extends [t] by events none of which is a sleep or a read. *)
Definition extends_quietly (t t' : list event) : Prop :=
  exists evs, t' = (t ++ evs)%list /\ forallb (fun e => negb (poll_marker e)) evs = true.

(** The world in which the lines of a poll are processed. *)
Definition at_poll (last_position : nat) (w : world) : world :=
  record (InfoReading last_position) (record (InfoCalled last_position) w).


(** What a call of [insert_message] returns, read off the record alone. *)
Definition insert_outcome `{RT : Runtime} (p : processed_message) : result unit :=
  c ← py_str (p_category p);
  if negb (accepts_identifier (safe_category c)) then Raise OperationalError
  else if String.eqb (table_name c) "category_stats" then Raise OperationalError
  else
    message ← bind_text (p_message p);
    author ← bind_text (p_author p);
    timestamp ← bind_text (p_timestamp p);
    category ← bind_text (p_category p);
    keyword ← bind_text (p_keyword_mentioned p);
    len ← bind_integer (p_message_length p);
    _ ← not_null message;
    _ ← not_null author;
    _ ← not_null timestamp;
    _ ← not_null category;
    Ok tt.

(** [w'] differs from [w] at most by tables that have been created: the log,
    the master table, the statistics and the rows of every table are the
    same, and the tables of [w] are still there. *)
Definition keeps_rows (w w' : world) : Prop :=
  trace w' = trace w
  /\ all_messages (db w') = all_messages (db w)
  /\ category_stats (db w') = category_stats (db w)
  /\ (forall t, rows_of t (db w') = rows_of t (db w))
  /\ (forall t rows, category_tables (db w) !! t = Some rows ->
                     category_tables (db w') !! t = Some rows).

(** One name before another in the order of the character codes. *)
Definition name_before (a b : string) : Prop := String.ltb a b = true.


(** A value that can be stored in a NOT NULL text column: a [str], a bool,
    a float, or an int of 64 bits. *)
Definition text_value (v : pyval) : Prop :=
  match v with
  | PStr _ | PBool _ | PFloat _ => True
  | PInt z => int64 z = true
  | PNone | PList _ | PDict _ => False
  end.

(** A value that can be bound to a parameter of a text column. *)
Definition bindable (v : pyval) : Prop :=
  match v with
  | PInt z => int64 z = true
  | PList _ | PDict _ => False
  | _ => True
  end.



(** A line that holds more than white space. *)
Definition not_blank (line : string) : Prop := Text.strip line <> "".

(** A text that is empty or ends in a line feed: every line in it is
    complete. *)
Fixpoint ends_in_line_feed (s : string) : bool :=
  match s with
  | EmptyString => true
  | String c EmptyString => Ascii.eqb c Text.LF
  | String _ r => ends_in_line_feed r
  end.

(** A computation that reads of the world only the database: from two
    worlds with the same database it gives the same result and the same
    database. *)
Definition db_local {A : Type} (m : M A) : Prop :=
  forall w1 w2, db w1 = db w2 ->
    fst (m w1) = fst (m w2) /\ db (snd (m w1)) = db (snd (m w2)).


(** The counts of the rows of a summary, added up. *)
Definition total_count (rows : list summary_row) : Z :=
  foldr (fun r acc => (sum_message_count r + acc)%Z) 0%Z rows.

(** ** Facts about text *)

Lemma str_map_fuse (f g : ascii -> ascii) (s : string) :
  Text.str_map f (Text.str_map g s) = Text.str_map (fun c => f (g c)) s.
Proof.
  induction s as [|c r IH]; simpl; [reflexivity|]. now rewrite IH.
Qed.

Lemma str_map_ext (f g : ascii -> ascii) (s : string) :
  (forall c, f c = g c) -> Text.str_map f s = Text.str_map g s.
Proof.
  intros E. induction s as [|c r IH]; simpl; [reflexivity|]. now rewrite E, IH.
Qed.

Lemma partition_char_code_order (c : ascii) :
  Text.lower_char
    (if Ascii.eqb (if Ascii.eqb c " " then "_"%char else c) "-" then "_"%char
     else if Ascii.eqb c " " then "_"%char else c) = partition_char c.
Proof.
  destruct c as [[] [] [] [] [] [] [] []]; reflexivity.
Qed.

Lemma partition_char_spec_order (c : ascii) :
  (if Ascii.eqb (if Ascii.eqb (Text.lower_char c) " " then "_"%char else Text.lower_char c) "-"
   then "_"%char
   else if Ascii.eqb (Text.lower_char c) " " then "_"%char else Text.lower_char c)
  = partition_char c.
Proof.
  destruct c as [[] [] [] [] [] [] [] []]; reflexivity.
Qed.

Lemma partition_char_other (c : ascii) :
  c <> " "%char -> c <> "-"%char -> Text.is_upper c = false -> partition_char c = c.
Proof.
  intros Hs Hh Hu. unfold partition_char, Text.lower_char.
  destruct (Ascii.eqb_spec c " "); [contradiction|].
  destruct (Ascii.eqb_spec c "-"); [contradiction|].
  now rewrite Hu.
Qed.

Lemma safe_category_by_char (label : string) :
  safe_category label = Text.str_map partition_char label.
Proof.
  unfold safe_category, Text.lower, Text.replace.
  rewrite !str_map_fuse. apply str_map_ext. intros c.
  rewrite <- partition_char_code_order.
  destruct (Ascii.eqb c " "); reflexivity.
Qed.

Lemma spec_identifier_by_char (label : string) :
  partition_identifier_spec label = Text.str_map partition_char label.
Proof.
  unfold partition_identifier_spec, Text.lower, Text.replace.
  rewrite !str_map_fuse. apply str_map_ext. intros c.
  rewrite <- partition_char_spec_order.
  destruct (Ascii.eqb (Text.lower_char c) " "); reflexivity.
Qed.

Lemma append_cons (c : ascii) (a b : string) : String c a ++ b = String c (a ++ b).
Proof. reflexivity. Qed.

Lemma append_empty (b : string) : "" ++ b = b.
Proof. reflexivity. Qed.

Lemma read_lines_nil (s : string) : Text.read_lines s = [] -> s = "".
Proof.
  destruct s as [|c r]; [reflexivity|]. cbn [Text.read_lines].
  destruct (Ascii.eqb c Text.LF); [discriminate|].
  destruct (Ascii.eqb c Text.CR).
  - destruct r as [|c2 r2]; [discriminate|]. destruct (Ascii.eqb c2 Text.LF); discriminate.
  - destruct (Text.read_lines r); discriminate.
Qed.

Lemma concat_read_lines_bounded (n : nat) :
  forall s, String.length s <= n -> Text.concat_lines (Text.read_lines s) = s.
Proof.
  induction n as [|n IH]; intros s Hn.
  - destruct s; [reflexivity | cbn in Hn; lia].
  - destruct s as [|c r]; [reflexivity|]. cbn [String.length] in Hn.
    cbn [Text.read_lines].
    destruct (Ascii.eqb c Text.LF).
    { cbn [Text.concat_lines]. rewrite append_cons, append_empty. f_equal. apply IH. lia. }
    destruct (Ascii.eqb c Text.CR).
    { destruct r as [|c2 r2]; [reflexivity|]. cbn [String.length] in Hn.
      destruct (Ascii.eqb c2 Text.LF); cbn [Text.concat_lines];
        rewrite ?append_cons, append_empty.
      - do 2 f_equal. apply IH. lia.
      - f_equal. apply IH. cbn [String.length]. lia. }
    pose proof (IH r ltac:(lia)) as Hr.
    destruct (Text.read_lines r) as [|l ls] eqn:E.
    + apply read_lines_nil in E. now subst r.
    + cbn [Text.concat_lines] in *. rewrite append_cons. now rewrite Hr.
Qed.

Lemma concat_read_lines (s : string) : Text.concat_lines (Text.read_lines s) = s.
Proof. now apply (concat_read_lines_bounded (String.length s)). Qed.

Lemma length_drop (n : nat) (s : string) :
  String.length (Text.drop n s) = String.length s - n.
Proof.
  revert s. induction n as [|n IH]; intros [|c r]; cbn; auto; lia.
Qed.

Lemma append_length (a b : string) : String.length (a ++ b) = String.length a + String.length b.
Proof.
  induction a as [|c a IH]; [reflexivity|].
  rewrite append_cons. cbn [String.length]. now rewrite IH.
Qed.

Lemma partial_tail_bound (lines : list string) :
  partial_tail lines <= String.length (Text.concat_lines lines).
Proof.
  unfold partial_tail.
  assert (H : String.length (List.last lines "") <= String.length (Text.concat_lines lines)).
  { induction lines as [|l [|l2 ls] IH].
    - cbn. lia.
    - cbn. rewrite append_length. lia.
    - change (List.last (l :: l2 :: ls) "") with (List.last (l2 :: ls) "").
      cbn [Text.concat_lines] in *. rewrite append_length. lia. }
  destruct (List.last lines "") as [|c r]; [lia|].
  destruct (Text.terminated (String c r)); [lia | exact H].
Qed.

(** C6. The partition identifier is a function of the label alone: it is the
    label with every space and every hyphen turned into an underscore and
    every upper-case letter lowered, in whichever order the two steps are
    taken; a character that is none of these is kept as it is; so
    [Pop Culture] gives [pop_culture], [E-Sports] gives [e_sports] and
    [Meme!] gives [meme!]. *)
Theorem safe_category_transform :
  (forall label, safe_category label = partition_identifier_spec label)
  /\ (forall label, safe_category label = Text.str_map partition_char label)
  /\ (forall label, String.length (safe_category label) = String.length label)
  /\ (forall c, c <> " "%char -> c <> "-"%char -> Text.is_upper c = false ->
        partition_char c = c)
  /\ (forall c, Text.is_upper c = true ->
        partition_char c = ascii_of_nat (nat_of_ascii c + 32))
  /\ partition_char " " = "_"%char
  /\ partition_char "-" = "_"%char
  /\ safe_category "Pop Culture" = "pop_culture"
  /\ safe_category "E-Sports" = "e_sports"
  /\ safe_category "Meme!" = "meme!".
Proof.
  repeat split.
  - intros label. now rewrite safe_category_by_char, spec_identifier_by_char.
  - apply safe_category_by_char.
  - intros label. rewrite safe_category_by_char.
    induction label as [|c r IH]; simpl; [reflexivity|]. now rewrite IH.
  - apply partition_char_other.
  - intros c Hu. unfold partition_char, Text.lower_char. rewrite Hu.
    destruct c as [[] [] [] [] [] [] [] []]; try reflexivity; discriminate Hu.
Qed.
(** ** Facts about the monad *)

Lemma bind_run {A B : Type} (m : M A) (f : A -> M B) (w : world) :
  (m ≫= f) w =
  match m w with
  | (Ok a, w') => f a w'
  | (Raise e, w') => (Raise e, w')
  end.
Proof. reflexivity. Qed.

Lemma world_eta (w : world) : {| db := db w; trace := trace w |} = w.
Proof. now destruct w. Qed.

Lemma database_eta (d : database) :
  {| all_messages := all_messages d; category_tables := category_tables d;
     category_stats := category_stats d |} = d.
Proof. now destruct d. Qed.

Ltac run_step :=
  first
    [ rewrite bind_run
    | progress unfold lift, raise, read_db, write_db, emit
    | progress cbv beta iota zeta ].

Ltac run := repeat run_step.

(** Case analysis on the next result the goal inspects. *)
Ltac next_result :=
  match goal with
  | |- context [match ?r with Ok _ => _ | Raise _ => _ end] =>
      destruct r eqn:?
  end.

(** ** Facts about the program *)

Section Facts.

Context `{RT : Runtime}.

Lemma insert_into_all_messages_cases (p : processed_message) (w : world) :
  match insert_into_all_messages p w with
  | (Ok _, w') =>
      exists m,
        w' = {| db := {| all_messages := (all_messages (db w) ++ [m])%list;
                         category_tables := category_tables (db w);
                         category_stats := category_stats (db w) |};
                trace := trace w |}
        /\ m_id m = S (length (all_messages (db w)))
        /\ bind_text (p_message p) = Ok (Some (m_message m))
        /\ bind_text (p_author p) = Ok (Some (m_author m))
        /\ bind_text (p_timestamp p) = Ok (Some (m_timestamp m))
        /\ bind_text (p_category p) = Ok (Some (m_category m))
        /\ m_sentiment m = p_sentiment p
        /\ bind_text (p_keyword_mentioned p) = Ok (m_keyword_mentioned m)
        /\ bind_integer (p_message_length p) = Ok (m_message_length m)
  | (Raise _, w') => w' = w
  end.
Proof.
  unfold insert_into_all_messages. run.
  repeat (next_result; run; [|reflexivity]).
  unfold not_null in *.
  repeat match goal with
         | H : match ?o with Some _ => _ | None => _ end = Ok _ |- _ =>
             destruct o; [injection H as <- | discriminate H]
         end.
  eexists {| m_id := _ |}. simpl. repeat split; reflexivity.
Qed.

Lemma insert_into_category_table_cases (table : string) (p : processed_message) (w : world) :
  match insert_into_category_table table p w with
  | (Ok _, w') =>
      exists rows r,
        category_tables (db w) !! table = Some rows
        /\ w' = {| db := {| all_messages := all_messages (db w);
                            category_tables := <[table := (rows ++ [r])%list]> (category_tables (db w));
                            category_stats := category_stats (db w) |};
                   trace := trace w |}
        /\ c_id r = S (length rows)
        /\ bind_text (p_message p) = Ok (Some (c_message r))
        /\ bind_text (p_author p) = Ok (Some (c_author r))
        /\ bind_text (p_timestamp p) = Ok (Some (c_timestamp r))
        /\ c_sentiment r = p_sentiment p
        /\ bind_text (p_keyword_mentioned p) = Ok (c_keyword_mentioned r)
        /\ bind_integer (p_message_length p) = Ok (c_message_length r)
  | (Raise _, w') => w' = w
  end.
Proof.
  unfold insert_into_category_table. run.
  repeat (next_result; run; [|reflexivity]).
  destruct (category_tables (db w) !! table) as [rows|] eqn:Hrows; run; [|reflexivity].
  repeat (next_result; run; [|reflexivity]).
  unfold not_null in *.
  repeat match goal with
         | H : match ?o with Some _ => _ | None => _ end = Ok _ |- _ =>
             destruct o; [injection H as <- | discriminate H]
         end.
  exists rows. eexists {| c_id := _ |}. simpl. repeat split; reflexivity.
Qed.

Lemma rows_of_insert_eq (t : string) (rows : list category_row)
    (tables : gmap string (list category_row)) (a : list message_row)
    (st : gmap string stats_row) :
  rows_of t {| all_messages := a; category_tables := <[t := rows]> tables;
               category_stats := st |} = rows.
Proof. unfold rows_of. cbn [category_tables]. now rewrite lookup_insert_eq. Qed.

Lemma rows_of_ensure (t u : string) (d : database) (a : list message_row)
    (st : gmap string stats_row) :
  rows_of u {| all_messages := a; category_tables := <[t := rows_of t d]> (category_tables d);
               category_stats := st |} = rows_of u d.
Proof.
  destruct (decide (t = u)) as [->|NE].
  - apply rows_of_insert_eq.
  - unfold rows_of. cbn [category_tables]. now rewrite lookup_insert_ne.
Qed.

Lemma keeps_rows_refl (w : world) : keeps_rows w w.
Proof. unfold keeps_rows. auto. Qed.

Lemma create_table_new (table : string) (w : world) :
  String.eqb table "category_stats" = false ->
  create_table table w
  = (Ok tt, {| db := {| all_messages := all_messages (db w);
                        category_tables :=
                          <[table := rows_of table (db w)]> (category_tables (db w));
                        category_stats := category_stats (db w) |};
               trace := trace w |}).
Proof. intros E. unfold create_table. rewrite E. reflexivity. Qed.

Lemma create_table_keeps_rows (table : string) (w : world) :
  exists w', create_table table w = (Ok tt, w') /\ keeps_rows w w'.
Proof.
  destruct (String.eqb table "category_stats") eqn:E.
  - exists w. split; [|apply keeps_rows_refl]. unfold create_table. now rewrite E.
  - eexists. split; [now apply create_table_new|].
    unfold keeps_rows. cbn [db trace all_messages category_stats category_tables].
    repeat split.
    + intros t. apply rows_of_ensure.
    + intros t rows H. destruct (decide (table = t)) as [->|NE].
      * rewrite lookup_insert_eq. unfold rows_of. now rewrite H.
      * now rewrite lookup_insert_ne.
Qed.

Lemma create_category_table_cases (category : pyval) (w : world) :
  match create_category_table category w with
  | (Ok _, w') =>
      exists c,
        category = PStr c
        /\ accepts_identifier (safe_category c) = true
        /\ table_name c <> "category_stats"
        /\ w' = {| db := {| all_messages := all_messages (db w);
                            category_tables :=
                              <[table_name c := rows_of (table_name c) (db w)]>
                                (category_tables (db w));
                            category_stats := category_stats (db w) |};
                   trace := (trace w ++ [InfoCategoryTable (table_name c)])%list |}
  | (Raise _, w') => keeps_rows w w'
  end.
Proof.
  unfold create_category_table. run.
  destruct category; unfold py_str; run; try apply keeps_rows_refl.
  destruct (String.eqb (table_name s) "category_stats") eqn:E; run;
    [apply keeps_rows_refl|].
  destruct (accepts_identifier (safe_category s)) eqn:Hacc; run.
  - rewrite (create_table_new _ _ E).
    apply String.eqb_neq in E.
    exists s. unfold record. cbn [db trace]. repeat split; auto.
  - destruct (stray_table (safe_category s)) as [x|].
    + destruct (create_table_keeps_rows ("category_" ++ x) w) as (w' & -> & H). exact H.
    + cbn [mret M_ret]. apply keeps_rows_refl.
Qed.

Lemma insert_message_cases (p : processed_message) (w : world) :
  match insert_message p w with
  | (Ok _, w') =>
      exists c m r,
        p_category p = PStr c
        /\ accepts_identifier (safe_category c) = true
        /\ table_name c <> "category_stats"
        /\ all_messages (db w') = (all_messages (db w) ++ [m])%list
        /\ rows_of (table_name c) (db w') = (rows_of (table_name c) (db w) ++ [r])%list
        /\ (forall t, t <> table_name c -> rows_of t (db w') = rows_of t (db w))
        /\ category_stats (db w') =
             <[c := {| message_count :=
                         (default 0 (message_count <$> category_stats (db w) !! c) + 1)%Z;
                       avg_sentiment :=
                         sql_avg (m_sentiment <$>
                                    in_category c (all_messages (db w) ++ [m])) |}]>
               (category_stats (db w))
        /\ trace w' = (trace w ++ [InfoCategoryTable (table_name c); InfoInserted (table_name c)])%list
        /\ m_category m = c
        /\ m_id m = S (length (all_messages (db w)))
        /\ c_id r = S (length (rows_of (table_name c) (db w)))
        /\ master_fields m = partition_fields r
        /\ bind_text (p_message p) = Ok (Some (m_message m))
        /\ bind_text (p_author p) = Ok (Some (m_author m))
        /\ bind_text (p_timestamp p) = Ok (Some (m_timestamp m))
        /\ m_sentiment m = p_sentiment p
        /\ bind_text (p_keyword_mentioned p) = Ok (m_keyword_mentioned m)
        /\ bind_integer (p_message_length p) = Ok (m_message_length m)
  | (Raise _, w') =>
      all_messages (db w') = all_messages (db w)
      /\ (forall t, rows_of t (db w') = rows_of t (db w))
      /\ category_stats (db w') = category_stats (db w)
      /\ (trace w' = trace w
          \/ exists c, trace w' = (trace w ++ [InfoCategoryTable (table_name c)])%list)
  end.
Proof.
  unfold insert_message. cbv zeta. rewrite bind_run.
  pose proof (create_category_table_cases (p_category p) w) as Hc.
  destruct (create_category_table (p_category p) w) as [[[]|e] w1].
  2: { destruct Hc as (Ht & Ha & Hs & Hr & _). auto. }
  destruct Hc as (c & Hcat & Hacc & Hne & Hw1).
  unfold with_connection. rewrite bind_run.
  pose proof (insert_into_all_messages_cases p w1) as Hm.
  destruct (insert_into_all_messages p w1) as [[[]|e] w2].
  2: { subst w2 w1. cbn [db trace all_messages category_stats].
       repeat split; eauto. intros t. apply rows_of_ensure. }
  destruct Hm as (m & Hw2 & Hid & Hmsg & Hauth & Hts & Hcatm & Hsent & Hkw & Hlen).
  rewrite Hcat. unfold py_str. run.
  pose proof (insert_into_category_table_cases (table_name c) p w2) as Hr.
  destruct (insert_into_category_table (table_name c) p w2) as [[[]|e] w3].
  2: { subst w3 w2 w1. cbn [db trace all_messages category_stats].
       repeat split; eauto. intros t. apply rows_of_ensure. }
  destruct Hr as (rows & r & Hrows & Hw3 & Hrid & Hmsg' & Hauth' & Hts' & Hsent' & Hkw' & Hlen').
  unfold update_category_stats. run. unfold record.
  subst w3 w2 w1. cbn [db trace all_messages category_tables category_stats] in *.
  rewrite lookup_insert_eq in Hrows. injection Hrows as <-.
  rewrite Hcat in Hcatm. cbn [bind_text] in Hcatm.
  exists c, m, r. repeat split; auto.
  - apply rows_of_insert_eq.
  - intros t Ht. unfold rows_of. cbn [category_tables].
    rewrite !lookup_insert_ne by congruence. reflexivity.
  - now rewrite <- app_assoc.
  - congruence.
  - unfold master_fields, partition_fields. congruence.
Qed.



Lemma in_category_snoc_same (c : string) (rows : list message_row) (m : message_row) :
  m_category m = c -> in_category c (rows ++ [m]) = (in_category c rows ++ [m])%list.
Proof.
  intros H. unfold in_category. rewrite filter_app.
  now rewrite (filter_cons_True _ m []) by exact H.
Qed.

Lemma in_category_snoc_other (c : string) (rows : list message_row) (m : message_row) :
  m_category m <> c -> in_category c (rows ++ [m]) = in_category c rows.
Proof.
  intros H. unfold in_category. rewrite filter_app.
  rewrite (filter_cons_False _ m []) by exact H.
  now rewrite filter_nil, app_nil_r.
Qed.

Lemma recomputed_stats_snoc (rows : list message_row) (m : message_row) :
  recomputed_stats (rows ++ [m]) (m_category m) =
  Some {| message_count :=
            (default 0 (message_count <$> recomputed_stats rows (m_category m)) + 1)%Z;
          avg_sentiment :=
            sql_avg (m_sentiment <$> in_category (m_category m) (rows ++ [m])) |}.
Proof.
  unfold recomputed_stats.
  rewrite in_category_snoc_same by reflexivity.
  destruct (in_category (m_category m) rows) as [|x g]; [reflexivity|].
  cbn [app fmap option_fmap option_map default message_count].
  do 2 f_equal. cbn [length]. rewrite length_app. cbn [length]. unfold id. lia.
Qed.

Lemma insert_message_keeps_step (p : processed_message) (w : world) :
  stats_in_step (db w) -> stats_in_step (db (snd (insert_message p w))).
Proof.
  intros Inv. pose proof (insert_message_cases p w) as H.
  destruct (insert_message p w) as [[[]|e] w']; cbn [snd].
  - destruct H as (c & m & r & _ & _ & _ & Hall & _ & _ & Hst & _ & Hcat & _).
    intros c'. rewrite Hst, Hall. destruct (decide (c = c')) as [<-|NE].
    + rewrite lookup_insert_eq. subst c.
      rewrite recomputed_stats_snoc. now rewrite (Inv (m_category m)).
    + rewrite lookup_insert_ne by exact NE. rewrite Inv.
      unfold recomputed_stats. rewrite in_category_snoc_other by congruence.
      reflexivity.
  - destruct H as (Hall & _ & Hst & _). intros c'. rewrite Hst, Hall. apply Inv.
Qed.

Lemma insert_all_keeps_step (calls : list processed_message) (w : world) :
  stats_in_step (db w) -> stats_in_step (db (insert_all calls w)).
Proof.
  revert w. induction calls as [|p rest IH]; intros w Inv; cbn [insert_all]; [exact Inv|].
  apply IH. now apply insert_message_keeps_step.
Qed.

(** C3. After any sequence of calls of [insert_message] on a freshly
    initialised store, the statistics row of every category is the one a
    rescan of the master table gives: there is a row exactly when the
    category has messages, its [message_count] is the number of master rows
    of the category and its [avg_sentiment] is the sum of their sentiments
    over their number. *)
Theorem stats_follow_master (calls : list processed_message) (category : string) :
  category_stats (db (insert_all calls init_world)) !! category
  = recomputed_stats (all_messages (db (insert_all calls init_world))) category
  /\ (forall s,
        category_stats (db (insert_all calls init_world)) !! category = Some s ->
        message_count s
        = Z.of_nat (length (in_category category
                              (all_messages (db (insert_all calls init_world)))))
        /\ avg_sentiment s
           = sql_avg (m_sentiment <$>
                        in_category category
                          (all_messages (db (insert_all calls init_world))))
        /\ in_category category (all_messages (db (insert_all calls init_world))) <> []).
Proof.
  assert (Inv : stats_in_step (db (insert_all calls init_world))).
  { apply insert_all_keeps_step. intros c. reflexivity. }
  split; [apply Inv|].
  intros s Hs. rewrite Inv in Hs. unfold recomputed_stats in Hs.
  destruct (in_category category (all_messages (db (insert_all calls init_world))))
    as [|x g]; [discriminate Hs|].
  injection Hs as <-. cbn [message_count avg_sentiment]. repeat split. discriminate.
Qed.


(** ** The normaliser *)

Lemma normalise_dict (entries : list (string * pyval)) :
  normalise (PDict entries) =
  match py_float (default (PFloat 0%Q) (entry entries "sentiment")) with
  | Raise e => Raise e
  | Ok s =>
      match py_int (default (PInt 0%Z) (entry entries "message_length")) with
      | Raise e => Raise e
      | Ok l =>
          Ok {| p_message := default PNone (entry entries "message");
                p_author := default PNone (entry entries "author");
                p_timestamp := default PNone (entry entries "timestamp");
                p_category := default (PStr "other") (entry entries "category");
                p_sentiment := s;
                p_keyword_mentioned := default (PStr "") (entry entries "keyword_mentioned");
                p_message_length := l |}
      end
  end.
Proof.
  unfold normalise, py_get. cbn [mbind result_bind mret result_ret].
  destruct (py_float _); [|reflexivity].
  destruct (py_int _); reflexivity.
Qed.

Lemma normalise_not_dict (message : pyval) :
  (forall entries, message <> PDict entries) -> normalise message = Raise AttributeError.
Proof.
  intros H. destruct message; try reflexivity. now destruct (H entries).
Qed.

Lemma process_message_cases (message : pyval) (w : world) :
  (exists p shown,
      normalise message = Ok p
      /\ py_slice 50 (p_message p) = Ok shown
      /\ process_message message w
         = (Ok (Some p), record (InfoProcessed (p_category p) shown) w))
  \/ (exists e,
        (normalise message = Raise e
         \/ exists p, normalise message = Ok p /\ py_slice 50 (p_message p) = Raise e)
        /\ process_message message w = (Ok None, record (ErrorProcessing e) w)).
Proof.
  unfold process_message, try_except. run.
  destruct (normalise message) as [p|e] eqn:Hn; run.
  - destruct (py_slice 50 (p_message p)) as [shown|e] eqn:Hs; run.
    + left. exists p, shown. auto.
    + right. exists e. split; [right; exists p; auto | reflexivity].
  - right. exists e. split; [left; reflexivity | reflexivity].
Qed.

(** C9. [process_message] never raises: on every input, dict or not, it
    returns [None] or a record with all seven fields, and leaves the
    database alone. The record it returns is the one the dict display
    builds: the message, author and timestamp as found (absent: [None]),
    the category (absent: [other]), the sentiment as a float (absent: 0.0),
    the keyword (absent: empty) and the length as an int (absent: 0), the
    message being one that can be sliced. A dict with no [message] key
    gives [None]. *)
Theorem process_message_total (message : pyval) (w : world) :
  (exists r w',
      process_message message w = (Ok r, w')
      /\ db w' = db w
      /\ (r = None
          \/ exists p entries shown,
               r = Some p
               /\ message = PDict entries
               /\ p_message p = default PNone (entry entries "message")
               /\ p_author p = default PNone (entry entries "author")
               /\ p_timestamp p = default PNone (entry entries "timestamp")
               /\ p_category p = default (PStr "other") (entry entries "category")
               /\ py_float (default (PFloat 0%Q) (entry entries "sentiment"))
                  = Ok (p_sentiment p)
               /\ p_keyword_mentioned p
                  = default (PStr "") (entry entries "keyword_mentioned")
               /\ py_int (default (PInt 0%Z) (entry entries "message_length"))
                  = Ok (p_message_length p)
               /\ py_slice 50 (p_message p) = Ok shown))
  /\ (forall entries,
        message = PDict entries -> entry entries "message" = None ->
        fst (process_message message w) = Ok None).
Proof.
  split.
  - destruct (process_message_cases message w)
      as [(p & shown & Hn & Hs & ->)|(e & _ & ->)].
    + exists (Some p), (record (InfoProcessed (p_category p) shown) w).
      repeat split. right.
      destruct message; try discriminate Hn.
      rewrite normalise_dict in Hn.
      destruct (py_float _) as [s|] eqn:Hf; [|discriminate Hn].
      destruct (py_int _) as [l|] eqn:Hl; [|discriminate Hn].
      injection Hn as <-. eexists _, entries, shown. cbn [p_message p_author p_timestamp p_category p_sentiment p_keyword_mentioned p_message_length] in *. repeat split; assumption.
    + exists None, (record (ErrorProcessing e) w). repeat split. now left.
  - intros entries -> Hm.
    destruct (process_message_cases (PDict entries) w)
      as [(p & shown & Hn & Hs & _)|(e & _ & ->)]; [|reflexivity].
    rewrite normalise_dict in Hn.
    destruct (py_float _) as [s|]; [|discriminate Hn].
    destruct (py_int _) as [l|]; [|discriminate Hn].
    injection Hn as <-. cbn [p_message] in Hs. rewrite Hm in Hs. discriminate Hs.
Qed.


(** ** Traces *)

Lemma extends_quietly_refl (t : list event) : extends_quietly t t.
Proof. exists []. now rewrite app_nil_r. Qed.

Lemma extends_quietly_trans (t1 t2 t3 : list event) :
  extends_quietly t1 t2 -> extends_quietly t2 t3 -> extends_quietly t1 t3.
Proof.
  intros (a & -> & Ha) (b & -> & Hb). exists (a ++ b)%list. split.
  - now rewrite app_assoc.
  - rewrite forallb_app. now rewrite Ha, Hb.
Qed.

Lemma extends_quietly_record (e : event) (w : world) :
  poll_marker e = false -> extends_quietly (trace w) (trace (record e w)).
Proof. intros H. exists [e]. split; [reflexivity|]. cbn. now rewrite H. Qed.

Lemma trace_record (e : event) (w : world) : trace (record e w) = (trace w ++ [e])%list.
Proof. reflexivity. Qed.

Lemma count_events_app (p : event -> bool) (a b : list event) :
  count_events p (a ++ b) = count_events p a + count_events p b.
Proof. unfold count_events. now rewrite List.filter_app, length_app. Qed.

Lemma count_events_quiet (p : event -> bool) (t t' : list event) :
  (forall e, p e = true -> poll_marker e = true) ->
  extends_quietly t t' -> count_events p t' = count_events p t.
Proof.
  intros Hp (evs & -> & Hq). rewrite count_events_app.
  assert (count_events p evs = 0) as ->; [|lia].
  induction evs as [|e evs IH]; [reflexivity|].
  cbn in Hq. apply andb_true_iff in Hq as [He Hq].
  unfold count_events in *. cbn [List.filter].
  destruct (p e) eqn:E; [|now apply IH].
  apply Hp in E. rewrite E in He. discriminate He.
Qed.

Lemma insert_message_quiet (p : processed_message) (w : world) :
  extends_quietly (trace w) (trace (snd (insert_message p w))).
Proof.
  pose proof (insert_message_cases p w) as H.
  destruct (insert_message p w) as [[[]|e] w']; cbn [snd].
  - destruct H as (c & m & r & _ & _ & _ & _ & _ & _ & _ & Ht & _).
    rewrite Ht. eexists. split; reflexivity.
  - destruct H as (_ & _ & _ & [->|[c ->]]).
    + apply extends_quietly_refl.
    + eexists. split; reflexivity.
Qed.

Lemma process_message_quiet (message : pyval) (w : world) :
  extends_quietly (trace w) (trace (snd (process_message message w))).
Proof.
  destruct (process_message_cases message w)
    as [(p & shown & _ & _ & ->)|(e & _ & ->)];
    now apply extends_quietly_record.
Qed.

Lemma process_message_db (message : pyval) (w : world) :
  db (snd (process_message message w)) = db w.
Proof.
  destruct (process_message_cases message w)
    as [(p & shown & _ & _ & ->)|(e & _ & ->)]; reflexivity.
Qed.

Lemma log_category_analytics_cases (w : world) :
  log_category_analytics w
  = (Ok tt, record (InfoAnalytics (order_by_count_desc (category_groups (db w)))) w)
  \/ log_category_analytics w = (Raise TypeError, w).
Proof.
  unfold log_category_analytics, get_category_analytics. run.
  cbn [mret M_ret].
  destruct (forallb _ _); run; auto.
Qed.

Lemma handle_line_quiet (line : string) (n : nat) (w : world) :
  extends_quietly (trace w) (trace (snd (handle_line line n w))).
Proof.
  unfold handle_line.
  destruct (String.eqb (Text.strip line) ""); [apply extends_quietly_refl|].
  destruct (json_loads (Text.strip line)) as [message|]; run.
  2: { now apply extends_quietly_record. }
  pose proof (process_message_quiet message w) as Hp.
  destruct (process_message message w) as [[[p|]|e] w1]; cbn [snd] in *; try exact Hp.
  run. pose proof (insert_message_quiet p w1) as Hi.
  destruct (insert_message p w1) as [[[]|e] w2]; cbn [snd] in *;
    [|eapply extends_quietly_trans; eassumption].
  assert (Hq : extends_quietly (trace w) (trace w2))
    by (eapply extends_quietly_trans; eassumption).
  destruct (Nat.eqb (S n mod 10) 0); run; [|exact Hq].
  destruct (log_category_analytics_cases w2) as [->| ->]; cbn [snd]; [|exact Hq].
  eapply extends_quietly_trans; [exact Hq|]. now apply extends_quietly_record.
Qed.

Lemma for_lines_quiet (lines : list string) (n : nat) (w : world) :
  extends_quietly (trace w) (trace (snd (for_lines lines n w))).
Proof.
  revert n w. induction lines as [|line rest IH]; intros n w; cbn [for_lines].
  - apply extends_quietly_refl.
  - rewrite bind_run. pose proof (handle_line_quiet line n w) as Hl.
    destruct (handle_line line n w) as [[k|e] w1]; cbn [snd] in *; [|exact Hl].
    eapply extends_quietly_trans; [exact Hl | apply IH].
Qed.


(** ** One call of [consume_messages_from_file] *)

Lemma consume_unfold (file : option string) (later : list (option string))
    (interval_secs last_position : nat) (w : world) :
  consume_messages_from_file (file :: later) interval_secs last_position w =
  match file with
  | None => Some (Exited 10, later, record ErrorFileNotFound (at_poll last_position w))
  | Some content =>
      match for_lines (delivered_lines content last_position) 0 (at_poll last_position w) with
      | (Ok _, w') => Some (Returned (tell_at_end content last_position), later, w')
      | (Raise e, w') => Some (Exited 11, later, record (ErrorReading e) w')
      end
  end.
Proof.
  unfold consume_messages_from_file, consume_loop, consume_attempt, at_poll.
  destruct file as [content|]; [|reflexivity].
  destruct (for_lines _ _ _) as [[k|e] w']; reflexivity.
Qed.

Lemma at_poll_counts (last_position : nat) (w : world) :
  count_events is_sleep (trace (at_poll last_position w)) = count_events is_sleep (trace w)
  /\ count_events is_read (trace (at_poll last_position w)) = S (count_events is_read (trace w)).
Proof.
  unfold at_poll, record. cbn [trace]. rewrite !count_events_app. cbn. lia.
Qed.

Lemma consume_one_pass (file : option string) (later : list (option string))
    (interval_secs last_position : nat) (w : world) :
  exists o w',
    consume_messages_from_file (file :: later) interval_secs last_position w
    = Some (o, later, w')
    /\ count_events is_sleep (trace w') = count_events is_sleep (trace w)
    /\ count_events is_read (trace w') = S (count_events is_read (trace w))
    /\ match file with
       | None => o = Exited 10
       | Some content =>
           (o = Returned (tell_at_end content last_position)
            /\ exists k, for_lines (delivered_lines content last_position) 0
                           (at_poll last_position w) = (Ok k, w'))
           \/ (o = Exited 11
               /\ exists e w1, for_lines (delivered_lines content last_position) 0
                                 (at_poll last_position w) = (Raise e, w1)
                               /\ w' = record (ErrorReading e) w1)
       end.
Proof.
  rewrite consume_unfold.
  destruct (at_poll_counts last_position w) as [Hs Hr].
  destruct file as [content|].
  - pose proof (for_lines_quiet (delivered_lines content last_position) 0
                  (at_poll last_position w)) as Hq.
    destruct (for_lines _ _ _) as [[k|e] w1]; cbn [snd] in Hq.
    + exists (Returned (tell_at_end content last_position)), w1.
      split; [reflexivity|]. rewrite <- Hs, <- Hr.
      split; [|split].
      * apply count_events_quiet; [|exact Hq]. intros e He. unfold poll_marker. now rewrite He.
      * apply count_events_quiet; [|exact Hq]. intros e He. unfold poll_marker.
        rewrite He. apply orb_true_r.
      * left. eauto.
    + exists (Exited 11), (record (ErrorReading e) w1).
      split; [reflexivity|]. rewrite <- Hs, <- Hr.
      assert (Hq' : extends_quietly (trace (at_poll last_position w))
                      (trace (record (ErrorReading e) w1))).
      { eapply extends_quietly_trans; [exact Hq|]. now apply extends_quietly_record. }
      split; [|split].
      * apply count_events_quiet; [|exact Hq']. intros x He. unfold poll_marker. now rewrite He.
      * apply count_events_quiet; [|exact Hq']. intros x He. unfold poll_marker.
        rewrite He. apply orb_true_r.
      * right. eauto.
  - exists (Exited 10), (record ErrorFileNotFound (at_poll last_position w)).
    split; [reflexivity|]. rewrite (trace_record ErrorFileNotFound).
    rewrite !count_events_app, Hs, Hr. cbn. repeat split; lia.
Qed.

Lemma consume_attempt_leaves (file : option string) (last_position n : nat) (w : world) :
  forall k, fst (consume_attempt file last_position n w) <> FallThrough k.
Proof.
  intros k. unfold consume_attempt. destruct file as [content|]; [|discriminate].
  destruct (for_lines _ _ _) as [[c|e] w']; discriminate.
Qed.

Lemma main_loop_sleeps (polls : nat) :
  forall (opens : list (option string)) (interval_secs last_position : nat) (w : world)
         (position : nat) (later : list (option string)) (w' : world),
    main_loop polls opens interval_secs last_position w = Polling position later w' ->
    count_events is_sleep (trace w') = count_events is_sleep (trace w) + polls
    /\ count_events is_read (trace w') = count_events is_read (trace w) + polls.
Proof.
  induction polls as [|k IH]; intros opens interval_secs last_position w position later w' H.
  - cbn in H. injection H as <- <- <-. lia.
  - cbn [main_loop] in H. destruct opens as [|file rest]; [discriminate H|].
    destruct (consume_one_pass file rest interval_secs last_position w)
      as (o & w1 & Hc & Hs & Hr & _).
    rewrite Hc in H. destruct o as [p|code]; [|discriminate H].
    apply IH in H. unfold record in H. cbn [trace] in H.
    rewrite !count_events_app in H. cbn in H. lia.
Qed.

(** C10. A call of [consume_messages_from_file] opens the file once and
    ends within that turn of its loop: it reads the lines after the
    position once and returns the position of the end of the file, or it
    leaves the process with code 10 (no file) or 11 (an exception while the
    lines were processed). The [try] statement is never left at its end, so
    the call never sleeps; in [main] every poll that returns is followed by
    exactly one sleep. *)
Theorem consume_one_pass_no_sleep (file : option string) (later : list (option string))
    (interval_secs last_position : nat) (w : world) :
  (exists o w',
      consume_messages_from_file (file :: later) interval_secs last_position w
      = Some (o, later, w')
      /\ count_events is_sleep (trace w') = count_events is_sleep (trace w)
      /\ count_events is_read (trace w') = S (count_events is_read (trace w))
      /\ match file with
         | None => o = Exited 10
         | Some content =>
             (o = Returned (tell_at_end content last_position)
              /\ exists k, for_lines (delivered_lines content last_position) 0
                             (at_poll last_position w) = (Ok k, w'))
             \/ (o = Exited 11
                 /\ exists e w1, for_lines (delivered_lines content last_position) 0
                                   (at_poll last_position w) = (Raise e, w1)
                                 /\ w' = record (ErrorReading e) w1)
         end)
  /\ (forall n k, fst (consume_attempt file last_position n w) <> FallThrough k)
  /\ (forall polls opens position rest w',
        main_loop polls opens interval_secs last_position w = Polling position rest w' ->
        count_events is_sleep (trace w') = count_events is_sleep (trace w) + polls
        /\ count_events is_read (trace w') = count_events is_read (trace w) + polls).
Proof.
  split; [apply consume_one_pass|]. split.
  - intros n k. apply consume_attempt_leaves.
  - intros polls opens position rest w'. apply main_loop_sleeps.
Qed.

(** ** The tailing reader *)

Lemma tell_at_end_covers (content : string) (last_position : nat) :
  tell_at_end content last_position
  = deferred_cursor content last_position
    + partial_tail (delivered_lines content last_position).
Proof.
  unfold deferred_cursor.
  pose proof (partial_tail_bound (delivered_lines content last_position)) as H.
  unfold delivered_lines in H at 2. rewrite concat_read_lines, length_drop in H.
  unfold tell_at_end. lia.
Qed.

(** C2, as the code has it. A poll delivers every line from the cursor to
    the end of the file, the last one also when it lacks its terminator: the
    delivered lines make up the whole text after the cursor. The cursor a
    poll returns is the end of the file (the old cursor when that lies
    beyond it), which is past a trailing partial line by the whole length of
    that line. *)
Theorem poll_reads_to_end_of_file (content : string) (later : list (option string))
    (interval_secs last_position : nat) (w : world) :
  Text.concat_lines (delivered_lines content last_position)
  = Text.drop last_position content
  /\ (exists o w',
        consume_messages_from_file (Some content :: later) interval_secs last_position w
        = Some (o, later, w')
        /\ ((o = Returned (tell_at_end content last_position)
             /\ exists k, for_lines (delivered_lines content last_position) 0
                            (at_poll last_position w) = (Ok k, w'))
            \/ o = Exited 11))
  /\ (last_position <= String.length content ->
      tell_at_end content last_position = String.length content)
  /\ tell_at_end content last_position
     = deferred_cursor content last_position
       + partial_tail (delivered_lines content last_position).
Proof.
  split; [apply concat_read_lines|]. split; [|split].
  - destruct (consume_one_pass (Some content) later interval_secs last_position w)
      as (o & w' & Hc & _ & _ & [[-> Hk]|[-> _]]); eexists _, w'; split; eauto.
  - unfold tell_at_end. lia.
  - apply tell_at_end_covers.
Qed.

(** ** What a call of [insert_message] returns *)

Lemma insert_message_outcome (p : processed_message) (w : world) :
  fst (insert_message p w) = insert_outcome p.
Proof.
  unfold insert_message, insert_outcome, create_category_table. cbv zeta.
  destruct (p_category p) as [| | | |c| |] eqn:Hcat; try reflexivity.
  unfold py_str. run. cbn [mbind result_bind].
  destruct (String.eqb (table_name c) "category_stats") eqn:E; run;
    [now destruct (accepts_identifier (safe_category c))|].
  destruct (accepts_identifier (safe_category c)); cbn [negb]; run.
  2: { destruct (stray_table (safe_category c)) as [x|]; [|reflexivity].
       now destruct (create_table_keeps_rows ("category_" ++ x) w) as (w' & -> & _). }
  rewrite (create_table_new _ _ E).
  unfold with_connection, insert_into_all_messages, insert_into_category_table,
    update_category_stats. run.
  rewrite Hcat.
  repeat (match goal with
          | |- context [bind_text ?v] => destruct (bind_text v) as [?|?]
          | |- context [bind_integer ?v] => destruct (bind_integer v) as [?|?]
          end; run; cbn [mbind result_bind fst]; try reflexivity).
  repeat (match goal with
          | |- context [not_null ?v] => is_var v; destruct v as [?|]; cbn [not_null]
          end; run; cbn [mbind result_bind fst]; try reflexivity).
  all: unfold record; cbn [db trace category_tables all_messages category_stats]; rewrite lookup_insert_eq; run;
    cbn [not_null]; run. all: reflexivity.
Qed.



(** ** One line of a poll *)


Lemma handle_line_rejected (line : string) (n : nat) (w w1 : world) (message : pyval) :
  String.eqb (Text.strip line) "" = false ->
  json_loads (Text.strip line) = Some message ->
  process_message message w = (Ok None, w1) ->
  handle_line line n w = (Ok n, w1).
Proof. intros Hb Hl Hp. unfold handle_line. rewrite Hb, Hl. run. now rewrite Hp. Qed.

Lemma handle_line_insert_raises (line : string) (n : nat) (w w1 w2 : world)
    (message : pyval) (p : processed_message) (e : exn) :
  String.eqb (Text.strip line) "" = false ->
  json_loads (Text.strip line) = Some message ->
  process_message message w = (Ok (Some p), w1) ->
  insert_message p w1 = (Raise e, w2) ->
  handle_line line n w = (Raise e, w2).
Proof.
  intros Hb Hl Hp Hi. unfold handle_line. rewrite Hb, Hl. run. rewrite Hp. run.
  now rewrite Hi.
Qed.


Lemma process_message_no_message (entries : list (string * pyval)) (w : world) :
  entry entries "message" = None ->
  exists e, process_message (PDict entries) w = (Ok None, record (ErrorProcessing e) w).
Proof.
  intros Hm.
  destruct (process_message_cases (PDict entries) w)
    as [(p & shown & Hn & Hs & _)|(e & _ & H)]; [|eauto].
  rewrite normalise_dict in Hn.
  destruct (py_float _) as [s|]; [|discriminate Hn].
  destruct (py_int _) as [l|]; [|discriminate Hn].
  injection Hn as <-. cbn [p_message] in Hs. rewrite Hm in Hs. discriminate Hs.
Qed.

Lemma normalise_no_author (entries : list (string * pyval)) (p : processed_message) :
  entry entries "author" = None -> normalise (PDict entries) = Ok p -> p_author p = PNone.
Proof.
  intros Ha Hn. rewrite normalise_dict in Hn.
  destruct (py_float _) as [s|]; [|discriminate Hn].
  destruct (py_int _) as [l|]; [|discriminate Hn].
  injection Hn as <-. cbn [p_author]. now rewrite Ha.
Qed.

Lemma insert_message_null_author (p : processed_message) (w : world) :
  p_author p = PNone -> exists e, fst (insert_message p w) = Raise e.
Proof.
  intros Ha. pose proof (insert_message_cases p w) as H.
  destruct (insert_message p w) as [[[]|e] w']; [|eauto].
  destruct H as (c & m & r & H).
  assert (Hb : bind_text (p_author p) = Ok (Some (m_author m))) by tauto.
  rewrite Ha in Hb. discriminate Hb.
Qed.

(** C1, as the code has it. A decoded record with no [message] key is
    rejected by [process_message]: the fault is logged, the database is as
    before, and the loop goes on with the next line. A record with no
    [author] key is not rejected for that: unless [process_message] rejects
    it for another reason, it is handed on with author [None], the call of
    [insert_message] raises, leaving the rows of the master table and of
    every category table and the statistics as they were, the exception
    leaves the loop over the lines, and the poll ends the process with code
    11. *)
Theorem missing_required_key (line : string) (entries : list (string * pyval))
    (rest : list string) (n : nat) (w : world) :
  String.eqb (Text.strip line) "" = false ->
  json_loads (Text.strip line) = Some (PDict entries) ->
  (entry entries "message" = None ->
   exists e, for_lines (line :: rest) n w = for_lines rest n (record (ErrorProcessing e) w))
  /\ (entry entries "author" = None ->
      (exists e, for_lines (line :: rest) n w
                 = for_lines rest n (record (ErrorProcessing e) w))
      \/ (exists p e w',
            fst (process_message (PDict entries) w) = Ok (Some p)
            /\ p_author p = PNone
            /\ insert_outcome p = Raise e
            /\ for_lines (line :: rest) n w = (Raise e, w')
            /\ all_messages (db w') = all_messages (db w)
            /\ (forall t, rows_of t (db w') = rows_of t (db w))
            /\ category_stats (db w') = category_stats (db w)
            /\ forall content later interval_secs last_position w0,
                 delivered_lines content last_position = line :: rest ->
                 w = at_poll last_position w0 -> n = 0 ->
                 consume_messages_from_file (Some content :: later) interval_secs
                   last_position w0
                 = Some (Exited 11, later, record (ErrorReading e) w'))).
Proof.
  intros Hb Hl. split.
  - intros Hm. destruct (process_message_no_message entries w Hm) as [e He].
    exists e. cbn [for_lines]. rewrite bind_run.
    now rewrite (handle_line_rejected _ _ _ _ _ Hb Hl He).
  - intros Ha.
    destruct (process_message_cases (PDict entries) w)
      as [(p & shown & Hn & Hs & Hp)|(e & _ & Hp)].
    + right.
      pose proof (normalise_no_author _ _ Ha Hn) as Hnull.
      destruct (insert_message_null_author p
                  (record (InfoProcessed (p_category p) shown) w) Hnull) as [e He].
      pose proof (insert_message_cases p (record (InfoProcessed (p_category p) shown) w))
        as Hc.
      destruct (insert_message p (record (InfoProcessed (p_category p) shown) w))
        as [r w'] eqn:Hi.
      cbn [fst] in He. subst r. destruct Hc as (Hall & Hrows & Hst & _).
      assert (Hfor : for_lines (line :: rest) n w = (Raise e, w')).
      { cbn [for_lines]. rewrite bind_run.
        now rewrite (handle_line_insert_raises _ _ _ _ _ _ _ _ Hb Hl Hp Hi). }
      exists p, e, w'. rewrite Hp. repeat split; auto.
      * rewrite <- (insert_message_outcome p (record (InfoProcessed (p_category p) shown) w)).
        now rewrite Hi.
      * intros content later interval_secs last_position w0 Hd -> ->.
        rewrite consume_unfold, Hd, Hfor. reflexivity.
    + left. exists e. cbn [for_lines]. rewrite bind_run.
      now rewrite (handle_line_rejected _ _ _ _ _ Hb Hl Hp).
Qed.

(** ** Two lines of a poll *)




End Facts.


(** ** The summary *)

Lemma in_category_nonempty (c : string) (rows : list message_row) :
  in_category c rows <> [] <-> c ∈ (m_category <$> rows).
Proof.
  unfold in_category. rewrite list_elem_of_fmap. split.
  - intros H. destruct (filter _ rows) as [|m g] eqn:E; [congruence|].
    assert (Hm : m ∈ filter (fun m => m_category m = c) rows) by (rewrite E; left).
    apply list_elem_of_filter in Hm as [Hc Hin]. eauto.
  - intros (m & -> & Hin) E.
    assert (Hm : m ∈ filter (fun x => m_category x = m_category m) rows)
      by (apply list_elem_of_filter; auto).
    rewrite E in Hm. inversion Hm.
Qed.

(** *** The order of the names *)

Lemma ascii_compare_lt_trans (a b c : ascii) :
  Ascii.compare a b = Lt -> Ascii.compare b c = Lt -> Ascii.compare a c = Lt.
Proof. unfold Ascii.compare. rewrite !N.compare_lt_iff. lia. Qed.

Lemma string_compare_lt_trans (s t u : string) :
  String.compare s t = Lt -> String.compare t u = Lt -> String.compare s u = Lt.
Proof.
  revert t u. induction s as [|a s IH]; intros [|b t] [|c u]; cbn [String.compare];
    try congruence.
  destruct (Ascii.compare a b) eqn:E1; try discriminate;
    destruct (Ascii.compare b c) eqn:E2; try discriminate; intros H1 H2.
  - apply Ascii.compare_eq_iff in E1, E2. subst b c.
    assert (Ascii.compare a a = Eq) as ->
      by (unfold Ascii.compare; apply N.compare_refl).
    now apply (IH t u).
  - apply Ascii.compare_eq_iff in E1. subst b. now rewrite E2.
  - apply Ascii.compare_eq_iff in E2. subst c. now rewrite E1.
  - now rewrite (ascii_compare_lt_trans a b c E1 E2).
Qed.

Lemma name_before_compare (a b : string) : name_before a b <-> String.compare a b = Lt.
Proof.
  unfold name_before, String.ltb. destruct (String.compare a b); split; congruence.
Qed.

Lemma name_before_trans (a b c : string) :
  name_before a b -> name_before b c -> name_before a c.
Proof. rewrite !name_before_compare. apply string_compare_lt_trans. Qed.

Lemma name_before_total (a b : string) :
  a <> b -> name_before a b \/ name_before b a.
Proof.
  intros NE. rewrite !name_before_compare.
  destruct (String.compare a b) eqn:E.
  - now apply String.compare_eq_iff in E.
  - now left.
  - right. rewrite String.compare_antisym, E. reflexivity.
Qed.

Lemma leb_name_before (a b : string) : String.leb a b = true -> a <> b -> name_before a b.
Proof.
  intros H NE. apply name_before_compare. unfold String.leb in H.
  destruct (String.compare a b) eqn:E; [|reflexivity|discriminate].
  now apply String.compare_eq_iff in E.
Qed.

Lemma not_leb_name_before (a b : string) : String.leb a b = false -> name_before b a.
Proof.
  intros H. apply name_before_compare. unfold String.leb in H.
  rewrite String.compare_antisym. destruct (String.compare a b); try discriminate.
  reflexivity.
Qed.

Lemma insert_name_perm (x : string) (l : list string) :
  Permutation (insert_name x l) (x :: l).
Proof.
  induction l as [|y r IH]; cbn [insert_name]; [reflexivity|].
  destruct (String.leb x y); [reflexivity|]. rewrite IH. apply perm_swap.
Qed.

Lemma sort_names_perm (l : list string) : Permutation (sort_names l) l.
Proof.
  induction l as [|x l IH]; [reflexivity|].
  cbn [sort_names foldr]. fold (sort_names l). rewrite insert_name_perm. now rewrite IH.
Qed.

Lemma insert_name_sorted (x : string) (l : list string) :
  x ∉ l -> StronglySorted name_before l -> StronglySorted name_before (insert_name x l).
Proof.
  induction l as [|y r IH]; intros Hx Hs; cbn [insert_name].
  - repeat constructor.
  - apply StronglySorted_inv in Hs as [Hr Hy].
    apply not_elem_of_cons in Hx as [NE Hx].
    destruct (String.leb x y) eqn:E.
    + apply leb_name_before in E; [|exact NE].
      constructor; [constructor; assumption|].
      constructor; [exact E|].
      eapply Forall_impl; [exact Hy|]. intros z Hz. now apply (name_before_trans x y z).
    + constructor; [now apply IH|].
      rewrite insert_name_perm. constructor; [now apply not_leb_name_before | exact Hy].
Qed.

Lemma sort_names_sorted (l : list string) :
  NoDup l -> StronglySorted name_before (sort_names l).
Proof.
  induction 1 as [|x l Hx Hnd IH]; [constructor|].
  cbn [sort_names foldr]. fold (sort_names l). apply insert_name_sorted; [|exact IH].
  now rewrite sort_names_perm.
Qed.

Lemma elem_of_categories (c : string) (rows : list message_row) :
  c ∈ categories rows <-> c ∈ (m_category <$> rows).
Proof. unfold categories. now rewrite sort_names_perm, elem_of_remove_dups. Qed.

Lemma NoDup_categories (rows : list message_row) : NoDup (categories rows).
Proof. unfold categories. rewrite sort_names_perm. apply NoDup_remove_dups. Qed.

Lemma categories_sorted (rows : list message_row) :
  StronglySorted name_before (categories rows).
Proof. apply sort_names_sorted, NoDup_remove_dups. Qed.

Lemma category_groups_names (d : database) :
  sum_category <$> category_groups d = categories (all_messages d).
Proof.
  unfold category_groups. rewrite <- list_fmap_compose.
  induction (categories _) as [|c l IH]; [reflexivity|].
  cbn [fmap list_fmap]. cbn [fmap] in IH. now rewrite IH.
Qed.

Lemma category_groups_sorted (d : database) :
  StronglySorted (fun a b => name_before (sum_category a) (sum_category b))
    (category_groups d).
Proof.
  unfold category_groups.
  induction (categories_sorted (all_messages d)) as [|c l Hs IH Hc]; [constructor|].
  cbn [fmap list_fmap]. constructor; [exact IH|].
  apply Forall_fmap. eapply Forall_impl; [exact Hc|]. intros z Hz. exact Hz.
Qed.

(** *** The sorter *)

Lemma insert_by_count_perm (x : summary_row) (l : list summary_row) :
  Permutation (insert_by_count x l) (x :: l).
Proof.
  induction l as [|y r IH]; cbn [insert_by_count]; [reflexivity|].
  destruct (sum_message_count y <=? sum_message_count x)%Z; [reflexivity|].
  rewrite IH. apply perm_swap.
Qed.

Lemma sort_by_count_perm (l : list summary_row) : Permutation (sort_by_count l) l.
Proof.
  induction l as [|x l IH]; [reflexivity|].
  cbn [sort_by_count foldr]. fold (sort_by_count l).
  rewrite insert_by_count_perm. now rewrite IH.
Qed.

Lemma insert_by_count_sorted (x : summary_row) (l : list summary_row) :
  StronglySorted count_desc l -> StronglySorted count_desc (insert_by_count x l).
Proof.
  induction l as [|y r IH]; intros Hs; cbn [insert_by_count].
  - repeat constructor.
  - apply StronglySorted_inv in Hs as [Hr Hy].
    destruct (sum_message_count y <=? sum_message_count x)%Z eqn:E.
    + constructor; [constructor; assumption|].
      constructor; [unfold count_desc; lia|].
      eapply Forall_impl; [exact Hy|]. intros z Hz. unfold count_desc in *. lia.
    + constructor; [now apply IH|].
      rewrite insert_by_count_perm. constructor; [unfold count_desc; lia | exact Hy].
Qed.

Lemma sort_by_count_sorted (l : list summary_row) :
  StronglySorted count_desc (sort_by_count l).
Proof.
  induction l as [|x l IH]; [constructor|].
  cbn [sort_by_count foldr]. now apply insert_by_count_sorted.
Qed.

Lemma keeps_arrival_order_honours (RT : Runtime) :
  keeps_arrival_order RT -> honours_order_by RT.
Proof.
  intros H rows. rewrite H. split; [apply sort_by_count_perm | apply sort_by_count_sorted].
Qed.

(** A row that comes before rows of greater name, all in the order of the
    specification, is put by the sorter where that order wants it. *)
Lemma insert_by_count_in_order (x : summary_row) (l : list summary_row) :
  Forall (fun y => name_before (sum_category x) (sum_category y)) l ->
  StronglySorted count_then_name l ->
  StronglySorted count_then_name (insert_by_count x l).
Proof.
  induction l as [|y r IH]; intros Hx Hs; cbn [insert_by_count].
  - repeat constructor.
  - apply StronglySorted_inv in Hs as [Hr Hy].
    apply Forall_cons in Hx as [Hxy Hxr].
    destruct (sum_message_count y <=? sum_message_count x)%Z eqn:E.
    + constructor; [constructor; assumption|].
      assert (Hle : Forall (fun z => (sum_message_count z <= sum_message_count x)%Z) (y :: r)).
      { constructor; [lia|]. eapply Forall_impl; [exact Hy|].
        intros z Hz. unfold count_then_name in Hz. lia. }
      assert (Hnames : Forall (fun z => name_before (sum_category x) (sum_category z)) (y :: r))
        by (constructor; assumption).
      clear - Hle Hnames. induction Hle as [|z l Hz Hl IHl]; [constructor|].
      apply Forall_cons in Hnames as [Hn Hns]. constructor; [|now apply IHl].
      unfold count_then_name.
      destruct (Z.eq_dec (sum_message_count x) (sum_message_count z)) as [Heq|Hne];
        [right; split; assumption | left; lia].
    + constructor; [now apply IH|].
      rewrite insert_by_count_perm. constructor; [|exact Hy].
      left. lia.
Qed.

Lemma sort_by_count_in_order (l : list summary_row) :
  StronglySorted (fun a b => name_before (sum_category a) (sum_category b)) l ->
  StronglySorted count_then_name (sort_by_count l).
Proof.
  induction 1 as [|x l Hs IH Hx]; [constructor|].
  cbn [sort_by_count foldr]. fold (sort_by_count l).
  apply insert_by_count_in_order; [|exact IH].
  now rewrite sort_by_count_perm.
Qed.

Lemma count_then_name_asym (a b : summary_row) :
  count_then_name a b -> count_then_name b a -> False.
Proof.
  unfold count_then_name. intros [H1|[E1 N1]] [H2|[E2 N2]]; try lia.
  apply name_before_compare in N1, N2.
  rewrite String.compare_antisym, N2 in N1. discriminate N1.
Qed.

(** Rows have one arrangement at most in the order of the specification. *)
Lemma in_order_unique (l1 l2 : list summary_row) :
  StronglySorted count_then_name l1 -> StronglySorted count_then_name l2 ->
  Permutation l1 l2 -> l1 = l2.
Proof.
  intros H1. revert l2. induction H1 as [|x l1 Hs1 IH Hx]; intros l2 H2 Hp.
  - now apply Permutation_nil in Hp.
  - destruct H2 as [|y l2 Hs2 Hy]; [now apply Permutation_sym, Permutation_nil in Hp|].
    assert (E : x = y).
    { assert (Hxin : x ∈ y :: l2) by (rewrite <- Hp; left).
      assert (Hyin : y ∈ x :: l1) by (rewrite Hp; left).
      apply elem_of_cons in Hxin as [E|Hxin]; [exact E|].
      apply elem_of_cons in Hyin as [E|Hyin]; [now symmetry|].
      rewrite Forall_forall in Hx, Hy.
      destruct (count_then_name_asym x y); auto. }
    subst y. f_equal. apply IH; [exact Hs2|]. now apply Permutation_cons_inv in Hp.
Qed.

Section Summary.
Context `{RT : Runtime}.

(** What the query returns under any engine that honours its ORDER BY: one
    row for every category that has a message and for no other, each row
    holding the category, the number of its messages, the mean of their
    sentiments, the number of their distinct authors and the greatest of
    their timestamps; the rows come highest count first. *)
Lemma analytics_rows (w : world) :
  honours_order_by RT ->
  exists rows,
    get_category_analytics w = (Ok rows, w)
    /\ NoDup (sum_category <$> rows)
    /\ (forall c, c ∈ (sum_category <$> rows) <-> in_category c (all_messages (db w)) <> [])
    /\ (forall r, r ∈ rows ->
          r = summarise (all_messages (db w)) (sum_category r)
          /\ sum_message_count r
             = Z.of_nat (length (in_category (sum_category r) (all_messages (db w))))
          /\ sum_avg_sentiment r
             = sql_avg (m_sentiment <$> in_category (sum_category r) (all_messages (db w)))
          /\ sum_unique_authors r
             = length (remove_dups
                         (m_author <$> in_category (sum_category r) (all_messages (db w))))
          /\ sum_latest_message r
             = sql_max (m_timestamp <$> in_category (sum_category r) (all_messages (db w))))
    /\ StronglySorted count_desc rows.
Proof.
  intros Horder. destruct (Horder (category_groups (db w))) as [Hperm Hsorted].
  exists (order_by_count_desc (category_groups (db w))).
  split; [reflexivity|]. split; [|split; [|split]].
  - rewrite Hperm, category_groups_names. apply NoDup_categories.
  - intros c. rewrite Hperm, category_groups_names, elem_of_categories.
    symmetry. apply in_category_nonempty.
  - intros r Hr. rewrite Hperm in Hr. unfold category_groups in Hr.
    apply list_elem_of_fmap in Hr as (c & -> & _). cbn. auto.
  - exact Hsorted.
Qed.

(** C5. The analytics query returns one row for every category that has a
    message and for no other, each row holding the category, the number of
    its messages, the mean of their sentiments, the number of their distinct
    authors and the greatest of their timestamps. The rows are in the order
    of the specification, count descending and, among equal counts, category
    ascending: the groups of [GROUP BY category] reach the sorter in
    ascending order of the category, and the sorter, which compares the
    counts alone, leaves rows of equal count in that order. The order is
    total on the rows, and theirs is the only arrangement in it. *)
Theorem analytics_in_order (w : world) :
  keeps_arrival_order RT ->
  exists rows,
    get_category_analytics w = (Ok rows, w)
    /\ NoDup (sum_category <$> rows)
    /\ (forall c, c ∈ (sum_category <$> rows) <-> in_category c (all_messages (db w)) <> [])
    /\ (forall r, r ∈ rows ->
          r = summarise (all_messages (db w)) (sum_category r)
          /\ sum_message_count r
             = Z.of_nat (length (in_category (sum_category r) (all_messages (db w))))
          /\ sum_avg_sentiment r
             = sql_avg (m_sentiment <$> in_category (sum_category r) (all_messages (db w)))
          /\ sum_unique_authors r
             = length (remove_dups
                         (m_author <$> in_category (sum_category r) (all_messages (db w))))
          /\ sum_latest_message r
             = sql_max (m_timestamp <$> in_category (sum_category r) (all_messages (db w))))
    /\ StronglySorted count_then_name rows
    /\ (forall a b, a ∈ rows -> b ∈ rows -> a <> b ->
          count_then_name a b \/ count_then_name b a)
    /\ (forall rows', Permutation rows' rows ->
          StronglySorted count_then_name rows' -> rows' = rows).
Proof.
  intros Hstable.
  destruct (analytics_rows w (keeps_arrival_order_honours RT Hstable))
    as (rows & Hrows & Hnd & Hcats & Hagg & _).
  assert (Hsorted : StronglySorted count_then_name rows).
  { unfold get_category_analytics in Hrows. cbn in Hrows. injection Hrows as <-.
    rewrite Hstable. apply sort_by_count_in_order, category_groups_sorted. }
  exists rows. repeat split; try assumption; try (now apply Hagg).
  - apply Hcats.
  - apply Hcats.
  - intros a b Ha Hb NE.
    assert (Hn : sum_category a <> sum_category b).
    { intros E. apply NE.
      rewrite (proj1 (Hagg a Ha)), (proj1 (Hagg b Hb)), E. reflexivity. }
    unfold count_then_name. fold (name_before (sum_category a) (sum_category b)).
    fold (name_before (sum_category b) (sum_category a)).
    destruct (name_before_total _ _ Hn);
      destruct (Z.lt_total (sum_message_count a) (sum_message_count b)) as [|[|]];
      auto.
  - intros rows' Hp Hs. now apply in_order_unique.
Qed.

End Summary.

Lemma demo_runtime_keeps_order : keeps_arrival_order Demo.runtime.
Proof. intros rows. reflexivity. Qed.

Lemma demo_runtime_honours : honours_order_by Demo.runtime.
Proof. apply keeps_arrival_order_honours, demo_runtime_keeps_order. Qed.

(** ** The program on concrete inputs *)

(** C2, as stated, fails: a record of which only the first 40 characters
    have been written is handed to the decoder, which faults, and the cursor
    returned is 40, not the start of that partial line (0); when the rest of
    the line has arrived, the next poll reads from 40 on, faults again, and
    the record is never stored. *)
Lemma partial_line_is_consumed :
  deferred_cursor Demo.partial 0 = 0
  /\ (exists w',
        @consume_messages_from_file Demo.runtime [Some Demo.partial] 1 0 init_world
        = Some (Returned 40, [], w')
        /\ count_events is_decode_fault (trace w') = 1)
  /\ (exists w',
        @main Demo.runtime 2 [Some Demo.partial; Some (Demo.line Demo.humor)] 1
        = Polling (String.length (Demo.line Demo.humor)) [] w'
        /\ all_messages (db w') = []
        /\ count_events is_decode_fault (trace w') = 2).
Proof.
  split; [reflexivity|]. split.
  - eexists. split; [vm_compute; reflexivity | reflexivity].
  - eexists. split; [vm_compute; reflexivity | split; reflexivity].
Qed.


(** C5 on a store of four messages in three categories, two of which have
    one message each, the one of the greater name stored first. *)
Lemma analytics_in_order_witness :
  exists rows,
    @get_category_analytics Demo.runtime
      (@insert_all Demo.runtime
         [Demo.record_of "b" "bob"; Demo.record_of "a" "amy";
          Demo.record_of "news" "bob"; Demo.record_of "news" "amy"] init_world)
    = (Ok rows,
       @insert_all Demo.runtime
         [Demo.record_of "b" "bob"; Demo.record_of "a" "amy";
          Demo.record_of "news" "bob"; Demo.record_of "news" "amy"] init_world)
    /\ StronglySorted count_then_name rows
    /\ sum_category <$> rows = ["news"; "a"; "b"]
    /\ sum_message_count <$> rows = [2%Z; 1%Z; 1%Z].
Proof.
  destruct (@analytics_in_order Demo.runtime
              (@insert_all Demo.runtime
                 [Demo.record_of "b" "bob"; Demo.record_of "a" "amy";
                  Demo.record_of "news" "bob"; Demo.record_of "news" "amy"] init_world)
              demo_runtime_keeps_order) as (rows & H & _ & _ & _ & Hs & _).
  exists rows. split; [exact H|]. split; [exact Hs|].
  vm_compute in H. injection H as <-. split; reflexivity.
Defined.

(** C1, as stated, fails: a record with no [author] is not dropped; the
    store refuses it and the poll ends the process with code 11 before the
    next line, a valid record, is looked at. *)
Lemma missing_author_ends_the_run :
  entry Demo.no_author "author" = None
  /\ (exists w',
        @consume_messages_from_file Demo.runtime
          [Some (Demo.line Demo.no_author ++ Demo.line Demo.humor)] 1 0 init_world
        = Some (Exited 11, [], w')
        /\ all_messages (db w') = []
        /\ List.last (trace w') (Sleep 0) = ErrorReading IntegrityError)
  /\ (exists w',
        @consume_messages_from_file Demo.runtime [Some (Demo.line Demo.humor)] 1 0 init_world
        = Some (Returned (String.length (Demo.line Demo.humor)), [], w')
        /\ length (all_messages (db w')) = 1).
Proof.
  split; [reflexivity|]. split.
  - eexists. split; [vm_compute; reflexivity|]. split; reflexivity.
  - eexists. split; [vm_compute; reflexivity|]. reflexivity.
Qed.

(** C1 on a concrete line: a record with no [message], then a valid one. *)
Lemma missing_required_key_witness :
  exists e,
    @for_lines Demo.runtime [Demo.line Demo.no_message; Demo.line Demo.humor] 0 init_world
    = @for_lines Demo.runtime [Demo.line Demo.humor] 0
        (record (ErrorProcessing e) init_world).
Proof.
  apply (proj1 (@missing_required_key Demo.runtime (Demo.line Demo.no_message)
                  Demo.no_message [Demo.line Demo.humor] 0 init_world
                  ltac:(vm_compute; reflexivity) ltac:(vm_compute; reflexivity))).
  reflexivity.
Defined.

(** C4 at the failing input: ten records stored in two polls of five give no
    report, the same ten records in one poll give one. *)
Theorem report_counter_restarts_each_poll :
  (exists w',
      @main Demo.runtime 2
        [Some (Demo.repeat_text 5 (Demo.line Demo.humor));
         Some (Demo.repeat_text 10 (Demo.line Demo.humor))] 1
      = Polling (10 * String.length (Demo.line Demo.humor)) [] w'
      /\ length (all_messages (db w')) = 10
      /\ count_events is_report (trace w') = 0)
  /\ (exists w',
        @main Demo.runtime 1 [Some (Demo.repeat_text 10 (Demo.line Demo.humor))] 1
        = Polling (10 * String.length (Demo.line Demo.humor)) [] w'
        /\ length (all_messages (db w')) = 10
        /\ count_events is_report (trace w') = 1).
Proof.
  split; eexists; (split; [vm_compute; reflexivity|]); split; reflexivity.
Qed.

(** * Further properties of the program *)

(** ** More about the router *)

Lemma partition_char_idempotent (c : ascii) : partition_char (partition_char c) = partition_char c.
Proof. destruct c as [[] [] [] [] [] [] [] []]; reflexivity. Qed.

Lemma partition_char_plain (c : ascii) :
  partition_char c <> " "%char /\ partition_char c <> "-"%char
  /\ Text.is_upper (partition_char c) = false.
Proof. destruct c as [[] [] [] [] [] [] [] []]; repeat split; discriminate. Qed.

(** The characters of a text, as a list. *)
Lemma in_str_map (f : ascii -> ascii) (s : string) (c : ascii) :
  In c (list_ascii_of_string (Text.str_map f s)) ->
  exists a, In a (list_ascii_of_string s) /\ c = f a.
Proof.
  induction s as [|a r IH]; cbn; [tauto|].
  intros [<-|H]; [eauto|]. destruct (IH H) as (b & Hb & ->). eauto.
Qed.

(** X1. A partition identifier holds no space, no hyphen and no upper-case
    letter, and routing an identifier again gives the identifier itself. *)
Theorem safe_category_is_normal (label : string) :
  safe_category (safe_category label) = safe_category label
  /\ (forall c, In c (list_ascii_of_string (safe_category label)) ->
        c <> " "%char /\ c <> "-"%char /\ Text.is_upper c = false)
  /\ table_name (safe_category label) = table_name label.
Proof.
  assert (Hidem : safe_category (safe_category label) = safe_category label).
  { rewrite !safe_category_by_char, str_map_fuse. apply str_map_ext.
    apply partition_char_idempotent. }
  split; [exact Hidem|]. split.
  - intros c Hc. rewrite safe_category_by_char in Hc.
    apply in_str_map in Hc as (a & _ & ->). apply partition_char_plain.
  - unfold table_name. now rewrite Hidem.
Qed.

Section Normaliser.
Context `{RT : Runtime}.

(** ** More about the normaliser *)

(** X2. [process_message] returns [None] exactly when the decoded value is
    not an object, or its sentiment has no float, or its length has no int,
    or its message is absent or cannot be sliced; in every other case it
    returns the record. *)
Theorem process_message_rejects_iff (message : pyval) (w : world) :
  fst (process_message message w) = Ok None <->
  ((forall entries, message <> PDict entries)
   \/ exists entries,
        message = PDict entries
        /\ ((exists e, py_float (default (PFloat 0%Q) (entry entries "sentiment")) = Raise e)
            \/ (exists e, py_int (default (PInt 0%Z) (entry entries "message_length")) = Raise e)
            \/ (exists e, py_slice 50 (default PNone (entry entries "message")) = Raise e))).
Proof.
  split.
  - intros H.
    destruct (process_message_cases message w)
      as [(p & shown & _ & _ & Hp)|(e & [Hn|(p & Hn & Hs)] & _)].
    + rewrite Hp in H. discriminate H.
    + destruct message; try (left; intros entries'; discriminate).
      right. exists entries. split; [reflexivity|]. rewrite normalise_dict in Hn.
      destruct (py_float _) as [s|e1]; [|left; eauto].
      destruct (py_int _) as [l|e2]; [|right; left; eauto]. discriminate Hn.
    + destruct message; try discriminate Hn.
      right. exists entries. split; [reflexivity|]. rewrite normalise_dict in Hn.
      destruct (py_float _) as [s|e1]; [|discriminate Hn].
      destruct (py_int _) as [l|e2]; [|discriminate Hn].
      injection Hn as <-. cbn [p_message] in Hs. right; right. eauto.
  - intros H.
    destruct (process_message_cases message w)
      as [(p & shown & Hn & Hs & _)|(e & _ & ->)]; [|reflexivity].
    exfalso. destruct H as [H|(entries & -> & H)].
    + destruct message; try discriminate Hn. now apply (H entries).
    + rewrite normalise_dict in Hn.
      destruct H as [[e H]|[[e H]|[e H]]].
      * rewrite H in Hn. discriminate Hn.
      * rewrite H in Hn. destruct (py_float _); discriminate Hn.
      * destruct (py_float _); [|discriminate Hn].
        destruct (py_int _); [|discriminate Hn].
        injection Hn as <-. cbn [p_message] in Hs. rewrite H in Hs. discriminate Hs.
Qed.

End Normaliser.

Section Storage.
Context `{RT : Runtime}.

(** ** More about the storage engine *)

(** X3. [create_category_table] is idempotent and keeps what is stored. A
    call that returns leaves the master table, the statistics and the rows
    of every category table as they were, the table of the category exists
    afterwards, and a second call returns too and changes nothing in the
    database. A call that raises writes nothing to the log and leaves the
    master table, the statistics and every table there was, with its rows,
    as they were; a table that CREATE TABLE made before CREATE INDEX raised
    may have been added. *)
Theorem create_category_table_idempotent (category : pyval) (w : world) :
  match create_category_table category w with
  | (Ok _, w1) =>
      all_messages (db w1) = all_messages (db w)
      /\ category_stats (db w1) = category_stats (db w)
      /\ (forall t, rows_of t (db w1) = rows_of t (db w))
      /\ (exists c, category = PStr c
                    /\ is_Some (category_tables (db w1) !! table_name c))
      /\ fst (create_category_table category w1) = Ok tt
      /\ db (snd (create_category_table category w1)) = db w1
  | (Raise _, w1) =>
      trace w1 = trace w
      /\ all_messages (db w1) = all_messages (db w)
      /\ category_stats (db w1) = category_stats (db w)
      /\ (forall t rows, category_tables (db w) !! t = Some rows ->
                         category_tables (db w1) !! t = Some rows)
  end.
Proof.
  pose proof (create_category_table_cases category w) as H.
  destruct (create_category_table category w) as [[[]|e] w1].
  2: { destruct H as (Ht & Ha & Hs & _ & Hk). auto. }
  destruct H as (c & -> & Hacc & Hne & ->). cbn [db all_messages category_stats].
  split; [reflexivity|]. split; [reflexivity|]. split; [|split].
  - intros t. apply rows_of_ensure.
  - exists c. split; [reflexivity|]. cbn [category_tables].
    rewrite lookup_insert_eq. eauto.
  - unfold create_category_table. run. unfold py_str. run.
    apply String.eqb_neq in Hne. rewrite Hne, Hacc. run.
    rewrite (create_table_new _ _ Hne).
    cbn [fst snd db all_messages category_tables category_stats]. split; [reflexivity|].
    unfold record. cbn [db]. rewrite rows_of_insert_eq, insert_insert_eq. reflexivity.
Qed.

(** X4. No record of a category whose identifier is [stats] can be stored:
    the table name [category_stats] belongs to the statistics table, the
    call raises [OperationalError] and the world is as before. *)
Theorem category_stats_name_is_taken (p : processed_message) (c : string) (w : world) :
  p_category p = PStr c ->
  safe_category c = "stats" ->
  insert_message p w = (Raise OperationalError, w).
Proof.
  intros Hcat Hsafe.
  assert (Hc : create_category_table (p_category p) w = (Raise OperationalError, w)).
  { unfold create_category_table. rewrite Hcat. unfold py_str. run.
    unfold table_name. rewrite Hsafe.
    assert (String.eqb ("category_" ++ "stats") "category_stats" = true) as ->
      by reflexivity.
    reflexivity. }
  unfold insert_message. cbv zeta. rewrite bind_run. now rewrite Hc.
Qed.

(** X5. A record whose category is not a [str] (a JSON null, number, list
    or object) cannot be stored: the call raises [AttributeError] before it
    touches the database. *)
Theorem category_must_be_text (p : processed_message) (w : world) :
  (forall c, p_category p <> PStr c) ->
  insert_message p w = (Raise AttributeError, w).
Proof.
  intros H. unfold insert_message, create_category_table. cbv zeta.
  destruct (p_category p) eqn:E; try reflexivity. now destruct (H s).
Qed.

Lemma bind_text_some (v : pyval) :
  (exists s, bind_text v = Ok (Some s)) <-> text_value v.
Proof.
  destruct v; cbn [bind_text text_value]; try destruct (int64 z);
    split; try (intros [s H]; discriminate H); try tauto; try discriminate; eauto.
Qed.

Lemma bind_text_ok (v : pyval) :
  (exists o, bind_text v = Ok o) <-> bindable v.
Proof.
  destruct v; cbn [bind_text bindable]; try destruct (int64 z);
    split; try (intros [s H]; discriminate H); try tauto; try discriminate; eauto.
Qed.

Lemma table_name_stats (c : string) :
  String.eqb (table_name c) "category_stats" = false <-> safe_category c <> "stats".
Proof.
  unfold table_name. rewrite String.eqb_neq. split; intros H E; apply H.
  - now rewrite E.
  - cbn in E. now injection E.
Qed.

(** X6. What a record needs for [insert_message] to return normally: its
    category is a [str] whose identifier the engine accepts and is not
    [stats], its message, author and timestamp are values a NOT NULL text
    column takes, its keyword can be bound and its length is an int of 64
    bits. A record that lacks one of these is refused. The conditions are
    necessary, not sufficient: the program refuses a sentiment that is not a
    number as well, which is no float of the model. *)
Theorem insert_message_needs (p : processed_message) (w : world) :
  fst (insert_message p w) = Ok tt ->
  (exists c, p_category p = PStr c
             /\ accepts_identifier (safe_category c) = true
             /\ safe_category c <> "stats")
  /\ text_value (p_message p)
  /\ text_value (p_author p)
  /\ text_value (p_timestamp p)
  /\ bindable (p_keyword_mentioned p)
  /\ int64 (p_message_length p) = true.
Proof.
  rewrite insert_message_outcome. unfold insert_outcome.
  rewrite <- !bind_text_some, <- bind_text_ok.
  destruct (p_category p) as [| | | |c| |] eqn:Hcat; try (cbn; discriminate).
  cbn [py_str mbind result_bind bind_text].
  unfold bind_integer.
  destruct (accepts_identifier (safe_category c)) eqn:Hacc; cbn [negb]; [|discriminate].
  destruct (String.eqb (table_name c) "category_stats") eqn:Hn; [discriminate|].
  apply table_name_stats in Hn.
  destruct (bind_text (p_message p)) as [[m|]|]; cbn [mbind result_bind not_null];
    try discriminate;
  destruct (bind_text (p_author p)) as [[a|]|]; cbn [mbind result_bind not_null];
    try discriminate;
  destruct (bind_text (p_timestamp p)) as [[t|]|]; cbn [mbind result_bind not_null];
    try discriminate;
  destruct (bind_text (p_keyword_mentioned p)) as [k|]; cbn [mbind result_bind not_null];
    try discriminate;
  destruct (int64 (p_message_length p)); cbn [mbind result_bind not_null];
    try discriminate.
  intros _. repeat split; eauto.
Qed.

(** X7. Whatever becomes of the record, a call of [insert_message] with a
    routable category leaves the table of that category in existence:
    [create_category_table] commits before the inserts begin, so a record
    the store then refuses still creates its (empty) table. *)
Theorem category_table_outlives_failure (p : processed_message) (c : string) (w : world) :
  p_category p = PStr c ->
  accepts_identifier (safe_category c) = true ->
  safe_category c <> "stats" ->
  is_Some (category_tables (db (snd (insert_message p w))) !! table_name c).
Proof.
  intros Hcat Hacc Hne. apply table_name_stats in Hne.
  set (w1 := {| db := {| all_messages := all_messages (db w);
                         category_tables :=
                           <[table_name c := rows_of (table_name c) (db w)]>
                             (category_tables (db w));
                         category_stats := category_stats (db w) |};
                trace := (trace w ++ [InfoCategoryTable (table_name c)])%list |}).
  assert (Hc : create_category_table (p_category p) w = (Ok tt, w1)).
  { unfold create_category_table. rewrite Hcat. unfold py_str. run.
    rewrite Hne, Hacc. run. rewrite (create_table_new _ _ Hne). reflexivity. }
  assert (H1 : is_Some (category_tables (db w1) !! table_name c)).
  { unfold w1. cbn [db category_tables]. rewrite lookup_insert_eq. eauto. }
  unfold insert_message. cbv zeta. rewrite bind_run, Hc.
  unfold with_connection. rewrite bind_run.
  pose proof (insert_into_all_messages_cases p w1) as Hm.
  destruct (insert_into_all_messages p w1) as [[[]|e] w2]; [|exact H1].
  destruct Hm as (m & -> & _). rewrite Hcat. unfold py_str. run.
  match goal with
  | |- context [insert_into_category_table ?t p ?w0] =>
      pose proof (insert_into_category_table_cases t p w0) as Hr;
      destruct (insert_into_category_table t p w0) as [[[]|e] w3]
  end; [|exact H1].
  destruct Hr as (rows & r & _ & -> & _).
  unfold update_category_stats. run. unfold record.
  cbn [snd db category_tables]. rewrite lookup_insert_eq. eauto.
Qed.

End Storage.

Section Invariants.
Context `{RT : Runtime}.









End Invariants.

Lemma drop_all (n : nat) (s : string) : String.length s <= n -> Text.drop n s = "".
Proof.
  revert s. induction n as [|n IH]; intros [|c r] H; cbn in *; auto; try lia.
  apply IH. lia.
Qed.

Lemma tenth_step (n : nat) :
  S n / 10 = n / 10 + (if Nat.eqb (S n mod 10) 0 then 1 else 0).
Proof.
  pose proof (Nat.div_mod_eq (S n) 10) as H1.
  pose proof (Nat.div_mod_eq n 10) as H2.
  pose proof (Nat.mod_upper_bound (S n) 10 ltac:(lia)) as B1.
  pose proof (Nat.mod_upper_bound n 10 ltac:(lia)) as B2.
  destruct (Nat.eqb_spec (S n mod 10) 0); lia.
Qed.

Section Lines.
Context `{RT : Runtime}.

(** ** More about the loop over the lines *)

Lemma handle_line_blank (line : string) (n : nat) (w : world) :
  ~ not_blank line -> handle_line line n w = (Ok n, w).
Proof.
  intros H. unfold handle_line, not_blank in *.
  destruct (String.eqb_spec (Text.strip line) ""); [reflexivity|contradiction].
Qed.

(** X10. Blank lines do not matter: a run over some lines is the run over
    those of them that hold more than white space, with the same result,
    the same database and the same trace. *)
Theorem blank_lines_are_skipped (lines : list string) (n : nat) (w : world) :
  for_lines lines n w = for_lines (filter not_blank lines) n w.
Proof.
  revert n w. induction lines as [|line rest IH]; intros n w; [reflexivity|].
  destruct (decide (not_blank line)) as [Hb|Hb].
  - rewrite filter_cons_True by exact Hb. cbn [for_lines]. rewrite !bind_run.
    destruct (handle_line line n w) as [[k|e] w1]; [apply IH | reflexivity].
  - rewrite filter_cons_False by exact Hb. cbn [for_lines]. rewrite bind_run.
    rewrite (handle_line_blank _ _ _ Hb). apply IH.
Qed.

(** X11. A poll whose cursor is at or beyond the end of the file (nothing
    new, or a file that was cut short) delivers no line, returns the cursor
    it was given and leaves the database alone: the cursor never moves
    back, so text written below it later is never read. *)
Theorem idle_poll (content : string) (later : list (option string))
    (interval_secs last_position : nat) (w : world) :
  String.length content <= last_position ->
  delivered_lines content last_position = []
  /\ consume_messages_from_file (Some content :: later) interval_secs last_position w
     = Some (Returned last_position, later, at_poll last_position w)
  /\ db (at_poll last_position w) = db w.
Proof.
  intros H.
  assert (Hd : delivered_lines content last_position = []).
  { unfold delivered_lines. now rewrite drop_all. }
  split; [exact Hd|]. split; [|reflexivity].
  rewrite consume_unfold, Hd. cbn [for_lines mret M_ret].
  unfold tell_at_end. now rewrite Nat.max_l.
Qed.

Lemma handle_line_counts (line : string) (n k : nat) (w w' : world) :
  handle_line line n w = (Ok k, w') ->
  (k = n /\ db w' = db w
   /\ count_events is_report (trace w') = count_events is_report (trace w))
  \/ (k = S n
      /\ length (all_messages (db w')) = S (length (all_messages (db w)))
      /\ count_events is_report (trace w')
         = count_events is_report (trace w) + (if Nat.eqb (S n mod 10) 0 then 1 else 0)).
Proof.
  unfold handle_line.
  destruct (String.eqb (Text.strip line) ""); [intros [= <- <-]; auto|].
  destruct (json_loads (Text.strip line)) as [message|]; run.
  2: { intros [= <- <-]. left. repeat split. rewrite trace_record, count_events_app.
       cbn. lia. }
  destruct (process_message_cases message w)
    as [(p & shown & _ & _ & ->)|(e & _ & ->)]; run.
  2: { intros [= <- <-]. left. repeat split. rewrite trace_record, count_events_app.
       cbn. lia. }
  pose proof (insert_message_cases p (record (InfoProcessed (p_category p) shown) w)) as Hi.
  destruct (insert_message p _) as [[[]|e] w2]; [|discriminate]. run.
  destruct Hi as (c & m & r & _ & _ & _ & Hall & _ & _ & _ & Ht & _).
  assert (Hrep : count_events is_report (trace w2) = count_events is_report (trace w)).
  { rewrite Ht, trace_record, !count_events_app. cbn. lia. }
  assert (Hlen : length (all_messages (db w2)) = S (length (all_messages (db w)))).
  { rewrite Hall, length_app. cbn. lia. }
  destruct (Nat.eqb (S n mod 10) 0); run.
  - destruct (log_category_analytics_cases w2) as [->| ->]; [|discriminate].
    intros [= <- <-]. right. split; [reflexivity|]. split; [exact Hlen|].
    rewrite trace_record, count_events_app, Hrep. cbn. lia.
  - intros [= <- <-]. right. split; [reflexivity|]. split; [exact Hlen|]. lia.
Qed.

Lemma for_lines_counts (lines : list string) (n k : nat) (w w' : world) :
  for_lines lines n w = (Ok k, w') ->
  n <= k
  /\ length (all_messages (db w')) = length (all_messages (db w)) + (k - n)
  /\ count_events is_report (trace w')
     = count_events is_report (trace w) + (k / 10 - n / 10).
Proof.
  revert n w. induction lines as [|line rest IH]; intros n w H; cbn [for_lines] in H.
  - injection H as <- <-. repeat split; lia.
  - rewrite bind_run in H. destruct (handle_line line n w) as [[j|e] w1] eqn:Hl;
      [|discriminate H].
    apply IH in H as (Hle & Hlen & Hrep).
    apply handle_line_counts in Hl as [(-> & Hdb & Hr)|(-> & Hl1 & Hr)].
    + rewrite Hdb in Hlen. rewrite Hr in Hrep. auto.
    + pose proof (tenth_step n) as Ht.
      pose proof (Nat.Div0.div_le_mono (S n) k 10 Hle) as Hm.
      repeat split; lia.
Qed.

(** X12. Within one run over lines that ends normally, the counter grows by
    one for every record stored, the master table by as many rows, and a
    report is logged each time the counter reaches a multiple of ten: from
    counter [n] to counter [k] that is [k / 10 - n / 10] reports. *)
Theorem reports_within_a_run (lines : list string) (n k : nat) (w w' : world) :
  for_lines lines n w = (Ok k, w') ->
  n <= k
  /\ length (all_messages (db w')) = length (all_messages (db w)) + (k - n)
  /\ count_events is_report (trace w')
     = count_events is_report (trace w) + (k / 10 - n / 10).
Proof. apply for_lines_counts. Qed.

End Lines.

(** X11 on a file of 10 characters read from position 12. *)
Lemma idle_poll_witness :
  delivered_lines "0123456789" 12 = []
  /\ @consume_messages_from_file Demo.runtime [Some "0123456789"] 1 12 init_world
     = Some (Returned 12, [], at_poll 12 init_world)
  /\ db (at_poll 12 init_world) = db init_world.
Proof.
  apply (@idle_poll Demo.runtime "0123456789" [] 1 12 init_world). cbn. lia.
Defined.

(** X12 on a file of twelve records. *)
Lemma reports_within_a_run_witness :
  0 <= 12
  /\ length (all_messages (db (snd (@for_lines Demo.runtime
               (delivered_lines (Demo.repeat_text 12 (Demo.line Demo.humor)) 0) 0 init_world))))
     = length (all_messages (db init_world)) + (12 - 0)
  /\ count_events is_report (trace (snd (@for_lines Demo.runtime
               (delivered_lines (Demo.repeat_text 12 (Demo.line Demo.humor)) 0) 0 init_world)))
     = count_events is_report (trace init_world) + (12 / 10 - 0 / 10).
Proof.
  apply (@reports_within_a_run Demo.runtime
           (delivered_lines (Demo.repeat_text 12 (Demo.line Demo.humor)) 0) 0 12 init_world).
  vm_compute. reflexivity.
Defined.

Lemma ends_in_line_feed_tail (c : ascii) (r : string) :
  ends_in_line_feed (String c r) = true -> ends_in_line_feed r = true.
Proof. destruct r; [reflexivity|]. cbn. auto. Qed.

Lemma read_lines_cons_nonempty (c : ascii) (r : string) : Text.read_lines (String c r) <> [].
Proof. intros H. apply read_lines_nil in H. discriminate H. Qed.

Lemma read_lines_app_bounded (n : nat) :
  forall a b, String.length a <= n -> ends_in_line_feed a = true ->
              Text.read_lines (a ++ b) = (Text.read_lines a ++ Text.read_lines b)%list.
Proof.
  induction n as [|n IH]; intros a b Hn He.
  - destruct a; [reflexivity | cbn in Hn; lia].
  - destruct a as [|c r]; [reflexivity|]. cbn [String.length] in Hn.
    pose proof (ends_in_line_feed_tail _ _ He) as Hr.
    rewrite append_cons. cbn [Text.read_lines].
    destruct (Ascii.eqb c Text.LF) eqn:Elf.
    { cbn [app]. f_equal. apply IH; [lia | exact Hr]. }
    destruct r as [|c2 r2].
    { cbn in He. rewrite Elf in He. discriminate He. }
    destruct (Ascii.eqb c Text.CR).
    { rewrite append_cons. cbn [String.length] in Hn.
      destruct (Ascii.eqb c2 Text.LF).
      - cbn [app]. f_equal. apply IH; [lia|]. now apply ends_in_line_feed_tail in Hr.
      - cbn [app]. f_equal. rewrite <- append_cons. apply IH; [cbn; lia | exact Hr]. }
    rewrite (IH (String c2 r2) b ltac:(lia) Hr).
    destruct (Text.read_lines (String c2 r2)) as [|l ls] eqn:E.
    + now apply read_lines_cons_nonempty in E.
    + reflexivity.
Qed.

Lemma read_lines_app (a b : string) :
  ends_in_line_feed a = true ->
  Text.read_lines (a ++ b) = (Text.read_lines a ++ Text.read_lines b)%list.
Proof. now apply (read_lines_app_bounded (String.length a)). Qed.

Lemma drop_app (n : nat) (a b : string) :
  n <= String.length a -> Text.drop n (a ++ b) = Text.drop n a ++ b.
Proof.
  revert a. induction n as [|n IH]; intros a H.
  - destruct a; reflexivity.
  - destruct a as [|c r]; [cbn in H; lia|]. rewrite append_cons. cbn [Text.drop].
    apply IH. cbn in H. lia.
Qed.

Lemma drop_length_app (a b : string) : Text.drop (String.length a) (a ++ b) = b.
Proof.
  rewrite drop_app by lia.
  assert (Text.drop (String.length a) a = "") as ->; [|reflexivity].
  induction a as [|c r IH]; [reflexivity|]. cbn. exact IH.
Qed.

Lemma delivered_lines_app (content more : string) (cursor : nat) :
  cursor <= String.length content ->
  ends_in_line_feed (Text.drop cursor content) = true ->
  delivered_lines (content ++ more) (tell_at_end content cursor) = Text.read_lines more
  /\ delivered_lines (content ++ more) cursor
     = (delivered_lines content cursor
        ++ delivered_lines (content ++ more) (tell_at_end content cursor))%list.
Proof.
  intros Hc He.
  assert (Ht : tell_at_end content cursor = String.length content)
    by (unfold tell_at_end; lia).
  assert (Hm : delivered_lines (content ++ more) (tell_at_end content cursor)
               = Text.read_lines more).
  { unfold delivered_lines. now rewrite Ht, drop_length_app. }
  split; [exact Hm|]. rewrite Hm. unfold delivered_lines.
  rewrite drop_app by exact Hc. now apply read_lines_app.
Qed.

(** X13. When the text a poll finds after its cursor is empty or ends in a
    line feed, the next poll, from the cursor that poll returns and on the
    file with more text appended, delivers exactly the lines of the new
    text: the lines of the two polls together are the lines one poll of the
    longer file delivers from the old cursor, none twice and none left
    out. *)
Theorem delivered_lines_resume (content more : string) (cursor : nat) :
  cursor <= String.length content ->
  ends_in_line_feed (Text.drop cursor content) = true ->
  delivered_lines (content ++ more) (tell_at_end content cursor) = Text.read_lines more
  /\ delivered_lines (content ++ more) cursor
     = (delivered_lines content cursor
        ++ delivered_lines (content ++ more) (tell_at_end content cursor))%list.
Proof. apply delivered_lines_app. Qed.

(** X13 on a file of one line that grows by another. *)
Lemma delivered_lines_resume_witness :
  delivered_lines (Demo.garbage ++ Demo.line Demo.humor) (tell_at_end Demo.garbage 0)
  = Text.read_lines (Demo.line Demo.humor)
  /\ delivered_lines (Demo.garbage ++ Demo.line Demo.humor) 0
     = (delivered_lines Demo.garbage 0
        ++ delivered_lines (Demo.garbage ++ Demo.line Demo.humor)
             (tell_at_end Demo.garbage 0))%list.
Proof.
  apply (delivered_lines_resume Demo.garbage (Demo.line Demo.humor) 0);
    [cbn; lia | reflexivity].
Defined.

Lemma db_local_ret {A : Type} (a : A) : db_local (mret a).
Proof. intros w1 w2 H. auto. Qed.

Lemma db_local_lift {A : Type} (r : result A) : db_local (lift r).
Proof. intros w1 w2 H. auto. Qed.

Lemma db_local_raise {A : Type} (e : exn) : db_local (@raise A e).
Proof. intros w1 w2 H. auto. Qed.

Lemma db_local_emit (e : event) : db_local (emit e).
Proof. intros w1 w2 H. auto. Qed.

Lemma db_local_read_db : db_local read_db.
Proof. intros w1 w2 H. cbn. now rewrite H. Qed.

Lemma db_local_write_db (d : database) : db_local (write_db d).
Proof. intros w1 w2 H. auto. Qed.




Create HintDb db_local.

#[local] Hint Resolve db_local_ret db_local_lift db_local_raise db_local_emit
  db_local_read_db db_local_write_db : db_local.


Section Polls.
Context `{RT : Runtime}.














End Polls.


Lemma total_count_perm (a b : list summary_row) :
  Permutation a b -> total_count a = total_count b.
Proof.
  unfold total_count. induction 1; cbn [foldr]; first [lia | congruence].
Qed.

Lemma group_sizes_add_up (rows : list message_row) (names : list string) :
  NoDup names ->
  (forall m, m ∈ rows -> m_category m ∈ names) ->
  foldr (fun c acc => length (in_category c rows) + acc) 0 names = length rows.
Proof.
  intros Hnd. induction rows as [|m rest IH]; intros Hin.
  - clear Hin Hnd. induction names as [|c names IHn]; [reflexivity|].
    cbn [foldr]. rewrite IHn. reflexivity.
  - assert (Hm : m_category m ∈ names) by (apply Hin; left).
    assert (Hrest : forall x, x ∈ rest -> m_category x ∈ names)
      by (intros x Hx; apply Hin; now right).
    specialize (IH Hrest). cbn [length]. rewrite <- IH. clear IH Hin Hrest.
    induction Hnd as [|c names Hc Hnd IHn]; [inversion Hm|].
    cbn [foldr]. unfold in_category at 1.
    destruct (decide (m_category m = c)) as [E|NE].
    + rewrite filter_cons_True by exact E. cbn [length].
      assert (Hrest : foldr (fun c acc => length (in_category c (m :: rest)) + acc) 0 names
                      = foldr (fun c acc => length (in_category c rest) + acc) 0 names).
      { clear IHn Hnd Hm. subst c. induction names as [|c' names IHn]; [reflexivity|].
        cbn [foldr]. rewrite IHn by (intros H; apply Hc; now right).
        unfold in_category at 1. rewrite filter_cons_False; [reflexivity|].
        intros E. apply Hc. rewrite E. left. }
      fold (in_category c rest). lia.
    + rewrite filter_cons_False by exact NE. fold (in_category c rest).
      rewrite IHn; [lia|]. apply elem_of_cons in Hm as [E|Hm]; [congruence | exact Hm].
Qed.

Lemma total_count_groups (d : database) :
  total_count (category_groups d) = Z.of_nat (length (all_messages d)).
Proof.
  rewrite <- (group_sizes_add_up (all_messages d) (categories (all_messages d))).
  - unfold category_groups.
    induction (categories (all_messages d)) as [|c names IH]; [reflexivity|].
    unfold total_count in *. cbn [fmap list_fmap foldr] in *. rewrite IH.
    cbn [sum_message_count summarise]. lia.
  - apply NoDup_categories.
  - intros m Hm. apply elem_of_categories, list_elem_of_fmap. eauto.
Qed.

Section Reports.
Context `{RT : Runtime}.

(** ** More about the summary *)

(** X15. The counts of the analytics rows add up to the number of rows of
    the master table: every message is counted in exactly one category. *)
Theorem analytics_counts_add_up (w : world) :
  honours_order_by RT ->
  exists rows,
    get_category_analytics w = (Ok rows, w)
    /\ total_count rows = Z.of_nat (length (all_messages (db w))).
Proof.
  intros Horder. destruct (Horder (category_groups (db w))) as [Hperm _].
  eexists. split; [reflexivity|].
  rewrite (total_count_perm _ _ Hperm). apply total_count_groups.
Qed.

(** X16. After any sequence of calls of [insert_message] on a freshly
    initialised store, the analytics query and the statistics table agree:
    every row of the query has a statistics row for its category with the
    same count and the same average, and every statistics row has its row
    in the query. *)
Theorem analytics_agree_with_stats (calls : list processed_message) :
  honours_order_by RT ->
  exists rows,
    get_category_analytics (insert_all calls init_world)
    = (Ok rows, insert_all calls init_world)
    /\ (forall r, r ∈ rows ->
          category_stats (db (insert_all calls init_world)) !! sum_category r
          = Some {| message_count := sum_message_count r;
                    avg_sentiment := sum_avg_sentiment r |})
    /\ (forall c, is_Some (category_stats (db (insert_all calls init_world)) !! c) ->
          c ∈ (sum_category <$> rows)).
Proof.
  intros Horder.
  assert (Inv : stats_in_step (db (insert_all calls init_world))).
  { apply insert_all_keeps_step. intros c. reflexivity. }
  set (w := insert_all calls init_world) in *.
  destruct (Horder (category_groups (db w))) as [Hperm _].
  eexists. split; [reflexivity|]. split.
  - intros r Hr. rewrite Hperm in Hr. unfold category_groups in Hr.
    apply list_elem_of_fmap in Hr as (c & -> & Hc).
    apply elem_of_categories, in_category_nonempty in Hc.
    cbn [sum_category sum_message_count sum_avg_sentiment summarise].
    rewrite Inv. unfold recomputed_stats.
    destruct (in_category c (all_messages (db w))) as [|m g]; [congruence|]. reflexivity.
  - intros c [s Hs]. rewrite Inv in Hs. rewrite Hperm, category_groups_names.
    apply elem_of_categories, in_category_nonempty.
    unfold recomputed_stats in Hs. intros E. rewrite E in Hs. discriminate Hs.
Qed.

End Reports.

(** X15 on a store of three messages. *)
Lemma analytics_counts_add_up_witness :
  exists rows,
    @get_category_analytics Demo.runtime
      (@insert_all Demo.runtime
         [Demo.record_of "humor" "amy"; Demo.record_of "news" "bob";
          Demo.record_of "news" "amy"] init_world)
    = (Ok rows,
       @insert_all Demo.runtime
         [Demo.record_of "humor" "amy"; Demo.record_of "news" "bob";
          Demo.record_of "news" "amy"] init_world)
    /\ total_count rows
       = Z.of_nat (length (all_messages (db (@insert_all Demo.runtime
           [Demo.record_of "humor" "amy"; Demo.record_of "news" "bob";
            Demo.record_of "news" "amy"] init_world)))).
Proof.
  apply (@analytics_counts_add_up Demo.runtime). exact demo_runtime_honours.
Defined.

(** X16 on a store of three messages. *)
Lemma analytics_agree_with_stats_witness :
  exists rows,
    @get_category_analytics Demo.runtime
      (@insert_all Demo.runtime
         [Demo.record_of "humor" "amy"; Demo.record_of "news" "bob";
          Demo.record_of "news" "amy"] init_world)
    = (Ok rows,
       @insert_all Demo.runtime
         [Demo.record_of "humor" "amy"; Demo.record_of "news" "bob";
          Demo.record_of "news" "amy"] init_world)
    /\ (forall r, r ∈ rows ->
          category_stats (db (@insert_all Demo.runtime
            [Demo.record_of "humor" "amy"; Demo.record_of "news" "bob";
             Demo.record_of "news" "amy"] init_world)) !! sum_category r
          = Some {| message_count := sum_message_count r;
                    avg_sentiment := sum_avg_sentiment r |})
    /\ (forall c, is_Some (category_stats (db (@insert_all Demo.runtime
            [Demo.record_of "humor" "amy"; Demo.record_of "news" "bob";
             Demo.record_of "news" "amy"] init_world)) !! c) ->
          c ∈ (sum_category <$> rows)).
Proof.
  apply (@analytics_agree_with_stats Demo.runtime). exact demo_runtime_honours.
Defined.

Section Faults.
Context `{RT : Runtime}.


(** X18. The loop of [main] leaves the process only with code 10 or 11,
    and with code 10 only when some [open] found no file; as long as every
    poll returns, it keeps polling. *)
Theorem main_exit_codes (polls : nat) (opens : list (option string)) (interval_secs : nat) :
  match main polls opens interval_secs with
  | Terminated code _ => (code = 10%Z /\ None ∈ opens) \/ code = 11%Z
  | Polling _ later _ => length opens = polls + length later
  | Unobserved => length opens < polls
  end.
Proof.
  unfold main. generalize init_world, 0. revert opens.
  induction polls as [|n IH]; intros opens w pos; cbn [main_loop]; [lia|].
  destruct opens as [|file rest]; [cbn; lia|].
  destruct (consume_one_pass file rest interval_secs pos w) as (o & w1 & Hc & _ & _ & Ho).
  rewrite Hc. destruct o as [p|c].
  - specialize (IH rest (record (Sleep interval_secs) w1) p).
    destruct (main_loop n rest interval_secs p _) as [p' later' w'|code w'|].
    + cbn [length]. lia.
    + destruct IH as [[-> Hin]| ->]; [left; split; [reflexivity | now right] | now right].
    + cbn [length]. lia.
  - destruct file as [content|].
    + destruct Ho as [[Ho _]|[Ho _]]; [discriminate Ho | injection Ho as <-; now right].
    + injection Ho as <-. left. split; [reflexivity | left].
Qed.

End Faults.

(** A label that ends in a tab: CREATE TABLE makes [category_a] of it,
    CREATE INDEX raises, and the empty table stays. *)
Example stray_table_is_kept :
  exists w',
    @create_category_table Demo.runtime
      (PStr (String "a"%char (String (ascii_of_nat 9) EmptyString))) init_world
    = (Raise OperationalError, w')
    /\ category_tables (db w') !! "category_a" = Some []
    /\ all_messages (db w') = []
    /\ trace w' = [].
Proof.
  eexists. split; [vm_compute; reflexivity|]. repeat split; reflexivity.
Qed.

(** X4 on a record of category [Stats]. *)
Lemma category_stats_name_is_taken_witness :
  @insert_message Demo.runtime (Demo.record_of "Stats" "amy") init_world
  = (Raise OperationalError, init_world).
Proof.
  apply (@category_stats_name_is_taken Demo.runtime (Demo.record_of "Stats" "amy") "Stats");
    reflexivity.
Defined.

(** X5 on the record of an object whose category is null. *)
Lemma category_must_be_text_witness :
  @insert_message Demo.runtime
    {| p_message := PStr "hello"; p_author := PStr "amy";
       p_timestamp := PStr "2025-01-29 14:35:20"; p_category := PNone;
       p_sentiment := 0%Q; p_keyword_mentioned := PStr ""; p_message_length := 5%Z |}
    init_world
  = (Raise AttributeError, init_world).
Proof.
  apply (@category_must_be_text Demo.runtime). intros c. cbn. discriminate.
Defined.

(** X6 on a record that is stored. *)
Lemma insert_message_needs_witness :
  (exists c, p_category (Demo.record_of "humor" "amy") = PStr c
             /\ @accepts_identifier Demo.runtime (safe_category c) = true
             /\ safe_category c <> "stats")
  /\ text_value (p_message (Demo.record_of "humor" "amy"))
  /\ text_value (p_author (Demo.record_of "humor" "amy"))
  /\ text_value (p_timestamp (Demo.record_of "humor" "amy"))
  /\ bindable (p_keyword_mentioned (Demo.record_of "humor" "amy"))
  /\ int64 (p_message_length (Demo.record_of "humor" "amy")) = true.
Proof.
  apply (@insert_message_needs Demo.runtime (Demo.record_of "humor" "amy") init_world).
  vm_compute. reflexivity.
Defined.

(** X7 on a record with no author. *)
Lemma category_table_outlives_failure_witness :
  is_Some (category_tables
             (db (snd (@insert_message Demo.runtime (Demo.record_of_line Demo.no_author)
                         init_world)))
           !! table_name "humor").
Proof.
  apply (@category_table_outlives_failure Demo.runtime
           (Demo.record_of_line Demo.no_author) "humor" init_world).
  - reflexivity.
  - reflexivity.
  - cbn. discriminate.
Defined.

